(** * SecureBank dashboard glue: the API helper, the toast and the stats poller

    A shallow embedding of [static/js/main.js]: [apiRequest], [showToast]
    (with [createToastContainer] and [getToastIcon]), [formatCurrency],
    [updateStats] and the guarded [setInterval] at the end of the module;
    and, each in a module of its own, [exportTableToCSV], [validateForm],
    [debounce], the function that [handleSearch] wraps, and
    [togglePassword].

    Everything the script asks of its host (the number type and its
    printers, [JSON], [Intl.NumberFormat], the wording of engine errors) is
    gathered in the class [Host]; the network is an oracle that answers each
    [fetch]; timers run on a virtual clock in milliseconds.

    Two things are idealised.  The answer to a [fetch] arrives at once, so
    a tick of the poller runs to its end before any other callback.  A timer
    fires exactly when it is due.  A toast is kept as what the script
    assigns to it, its class and the markup of its [innerHTML]; what the
    browser makes of that markup is outside the model, and the document has
    a [body]. *)

From Stdlib Require Import ZArith Lia Ascii.
From stdpp Require Import gmap strings list fin_maps pretty.

Local Open Scope Z_scope.

(** ** JavaScript values *)

(** The values that flow through the script: what [JSON.parse] can return,
    plus [undefined] (the result of reading a missing property or of an
    omitted argument).  An object is its list of own properties; a lookup
    takes the first binding of a key. *)
#[local] Unset Elimination Schemes.
Inductive value (number : Type) : Type :=
| VUndefined
| VNull
| VBool (b : bool)
| VNum (n : number)
| VStr (s : string)
| VArr (items : list (value number))
| VObj (fields : list (string * value number)).

#[local] Set Elimination Schemes.

Arguments VUndefined {number}.
Arguments VNull {number}.
Arguments VBool {number} b.
Arguments VNum {number} n.
Arguments VStr {number} s.
Arguments VArr {number} items.
Arguments VObj {number} fields.

(** An [Error] object, as far as the script looks at it: [error.message]. *)
Record js_error := mkError { err_name : string; err_message : string }.

(** The services of the browser that the script calls but does not define. *)
Class Host := {
  number : Type;
  (** [NaN], and the numbers of the integers (used for [0] and [1]) *)
  NaN : number;
  Number_of_Z : Z -> number;
  (** ToBoolean on a number: false for [+0], [-0] and [NaN] *)
  Number_falsy : number -> bool;
  (** Number::toString and Number.prototype.toFixed(digits) *)
  Number_toString : number -> string;
  Number_toFixed : nat -> number -> string;
  (** [new Intl.NumberFormat('en-US', {style:'currency', currency:'USD'}).format],
      on a number and on a numeric text *)
  Intl_format_USD : number -> string;
  Intl_format_USD_text : string -> string;
  (** [JSON.stringify] ([None] is the result [undefined]) and [JSON.parse]
      (the right injection carries the message of the SyntaxError) *)
  JSON_stringify : value number -> option string;
  JSON_parse : string -> value number + string;
  (** the engine's messages: for reading property [p] of [null] or
      [undefined], for calling something that is not a function, and for an
      object that has no primitive value *)
  msg_cannot_read : value number -> string -> string;
  msg_not_a_function : string -> string;
  msg_cannot_convert : string
}.

Section Script.

Context `{H : Host}.

Abbreviation val := (value number).

(** *** Coercions of the language *)

Definition ToBoolean (v : val) : bool :=
  match v with
  | VUndefined | VNull => false
  | VBool b => b
  | VNum n => negb (Number_falsy n)
  | VStr s => negb (String.eqb s "")
  | VArr _ | VObj _ => true
  end.

Fixpoint join (sep : string) (l : list string) : string :=
  match l with
  | [] => ""
  | [s] => s
  | s :: rest => s +:+ sep +:+ join sep rest
  end.

(** Completions: a computation ends normally or throws. *)
Definition completion (A : Type) : Type := A + js_error.

Definition and_then {A B} (c : completion A) (k : A -> completion B)
  : completion B :=
  match c with
  | inl a => k a
  | inr e => inr e
  end.

Definition TypeError (msg : string) : js_error := mkError "TypeError" msg.
Definition SyntaxError (msg : string) : js_error := mkError "SyntaxError" msg.

Fixpoint own_property (fields : list (string * val)) (p : string) : option val :=
  match fields with
  | [] => None
  | (k, v) :: rest => if String.eqb k p then Some v else own_property rest p
  end.

(** ToString.  An array prints through [Array.prototype.join], where
    [undefined] and [null] items are empty.  An object prints through
    [Object.prototype.toString], unless it has an own property [toString]:
    that property hides the method and is not callable (it came out of
    JSON), [valueOf] answers the object itself, and the conversion throws. *)
Fixpoint ToString (v : val) : completion string :=
  match v with
  | VUndefined => inl "undefined"
  | VNull => inl "null"
  | VBool true => inl "true"
  | VBool false => inl "false"
  | VNum n => inl (Number_toString n)
  | VStr s => inl s
  | VArr items =>
      and_then
        ((fix texts (l : list val) : completion (list string) :=
            match l with
            | [] => inl []
            | x :: rest =>
                and_then (match x with
                          | VUndefined | VNull => inl ""
                          | _ => ToString x
                          end) (fun s =>
                and_then (texts rest) (fun ss => inl (s :: ss)))
            end) items)
        (fun ss => inl (join "," ss))
  | VObj fields =>
      match own_property fields "toString" with
      | Some _ => inr (TypeError msg_cannot_convert)
      | None => inl "[object Object]"
      end
  end.

(** [v.p] for the property names the script reads ([error],
    [total_transactions], [total_amount], [fraud_count], [fraud_rate]):
    none of them is defined on a built-in prototype, so only an object's own
    properties answer; [null] and [undefined] throw. *)
Definition get_prop (v : val) (p : string) : completion val :=
  match v with
  | VUndefined | VNull => inr (TypeError (msg_cannot_read v p))
  | VObj fields => inl (default VUndefined (own_property fields p))
  | _ => inl VUndefined
  end.

(** [new Error(x)]: the message is ToString(x) unless [x] is [undefined]. *)
Definition new_Error (x : val) : completion js_error :=
  match x with
  | VUndefined => inl (mkError "Error" "")
  | _ => and_then (ToString x) (fun msg => inl (mkError "Error" msg))
  end.

(** [x.toFixed(2)]: only numbers have the method. *)
Definition toFixed2 (expr : string) (x : val) : completion string :=
  match x with
  | VUndefined | VNull => inr (TypeError (msg_cannot_read x "toFixed"))
  | VNum n => inl (Number_toFixed 2 n)
  | _ => inr (TypeError (msg_not_a_function expr))
  end.

(** What [el.textContent = v] stores: the attribute is a nullable DOMString,
    so [null] and [undefined] give the empty text, and any other value is
    converted with ToString. *)
Definition DOMString_of (v : val) : completion string :=
  match v with
  | VUndefined | VNull => inl ""
  | _ => ToString v
  end.

(** ** formatCurrency *)

(** [format] first takes the primitive value of its argument: an array or
    an object goes through its string conversion. *)
Definition formatCurrency (amount : val) : completion string :=
  match amount with
  | VUndefined => inl (Intl_format_USD NaN)
  | VNull => inl (Intl_format_USD (Number_of_Z 0))
  | VBool b => inl (Intl_format_USD (Number_of_Z (if b then 1 else 0)))
  | VNum n => inl (Intl_format_USD n)
  | VStr s => inl (Intl_format_USD_text s)
  | VArr _ | VObj _ =>
      and_then (ToString amount) (fun s => inl (Intl_format_USD_text s))
  end.

(** ** The page: document, console, timers and network trace *)

(** The callbacks the script hands to [setInterval] and [setTimeout]:
    [updateStats], and the two closures of [showToast] over its toast. *)
Inductive callback :=
| UpdateStats
| ToastFade (node : nat)
| ToastRemove (node : nat).

(** A pending timer; [t_every] is the period of a [setInterval]. *)
Record timer := mkTimer { t_due : Z; t_every : option Z; t_callback : callback }.

(** What [icons[type] || icons.info] evaluates to: one of the four class
    names, or a member inherited from [Object.prototype] (all truthy). *)
Inductive icon :=
| IconClass (name : string)
| IconInherited (member : string).

(** A toast element, by what the script assigns to it: the [div] gets
    the class [toast toast-<type> show] and, as its [innerHTML], the
    template of [showToast] with two substitutions: the icon, and the
    message between [<span>] and [</span>].  [toast_span] is that
    substituted text as it stands in the markup, not escaped: where it holds
    markup the browser parses it, and the element then does not show it as
    text.  [toast_fade_out] tells whether [fade-out] was added to the class
    list. *)
Record toast := mkToast {
  toast_node : nat;
  toast_type : string;
  toast_icon : icon;
  toast_span : string;
  toast_fade_out : bool
}.







Record request := mkRequest {
  req_url : string;
  req_method : string;
  req_headers : list (string * string);
  req_body : option string
}.

(** A response: its status and what reading its body gives (the text, or
    the error of a broken stream). *)
Record response := mkResponse { resp_status : Z; resp_text : string + js_error }.

Definition resp_ok (r : response) : bool :=
  (200 <=? resp_status r) && (resp_status r <=? 299).

Inductive fetch_outcome :=
| Rejected (e : js_error)
| Responded (r : response).

Inductive log_entry :=
| ConsoleError (label : string) (e : js_error).

(** [elements] maps the id of each text surface of the document to its
    [textContent]; [toast_container] is the children of [#toast-container]
    when the document has one; [requests] is the trace of [fetch] calls
    with the time of each. *)
Record world := mkWorld {
  now : Z;
  elements : gmap string string;
  toast_container : option (list toast);
  next_node : nat;
  timers : list timer;
  console : list log_entry;
  requests : list (Z * request)
}.

Definition set_now (t : Z) (w : world) : world :=
  mkWorld t (elements w) (toast_container w) (next_node w) (timers w)
          (console w) (requests w).

Definition set_elements (d : gmap string string) (w : world) : world :=
  mkWorld (now w) d (toast_container w) (next_node w) (timers w)
          (console w) (requests w).

Definition set_toast_container (c : option (list toast)) (w : world) : world :=
  mkWorld (now w) (elements w) c (next_node w) (timers w)
          (console w) (requests w).

Definition set_next_node (n : nat) (w : world) : world :=
  mkWorld (now w) (elements w) (toast_container w) n (timers w)
          (console w) (requests w).

Definition set_timers (ts : list timer) (w : world) : world :=
  mkWorld (now w) (elements w) (toast_container w) (next_node w) ts
          (console w) (requests w).

Definition console_error (label : string) (e : js_error) (w : world) : world :=
  mkWorld (now w) (elements w) (toast_container w) (next_node w) (timers w)
          (console w ++ [ConsoleError label e]) (requests w).

Definition record_request (r : request) (w : world) : world :=
  mkWorld (now w) (elements w) (toast_container w) (next_node w) (timers w)
          (console w) (requests w ++ [(now w, r)]).

Definition setTimeout (cb : callback) (delay : Z) (w : world) : world :=
  set_timers (timers w ++ [mkTimer (now w + delay) None cb]) w.

Definition setInterval (cb : callback) (delay : Z) (w : world) : world :=
  set_timers (timers w ++ [mkTimer (now w + delay) (Some delay) cb]) w.

(** A computation of the script: it changes the page and completes. *)
Definition M (A : Type) : Type := world -> world * completion A.

Definition ret {A} (a : A) : M A := fun w => (w, inl a).
Definition throw {A} (e : js_error) : M A := fun w => (w, inr e).
Definition lift {A} (c : completion A) : M A := fun w => (w, c).
Definition effect (f : world -> world) : M unit := fun w => (f w, inl tt).

Definition bind {A B} (m : M A) (k : A -> M B) : M B :=
  fun w => match m w with
           | (w', inl a) => k a w'
           | (w', inr e) => (w', inr e)
           end.

(** [try { m } catch (error) { handler }], also [promise.catch(handler)]. *)
Definition try_catch {A} (m : M A) (handler : js_error -> M A) : M A :=
  fun w => match m w with
           | (w', inl a) => (w', inl a)
           | (w', inr e) => handler e w'
           end.

Notation "'let!' x ':=' m 'in' k" := (bind m (fun x => k))
  (at level 10, x name, m at level 100, k at level 200).
Notation "'do!' m 'in' k" := (bind m (fun _ => k))
  (at level 10, m at level 100, k at level 200).

(** ** Toast notifications *)

Definition Object_prototype_members : list string :=
  ["constructor"; "hasOwnProperty"; "isPrototypeOf"; "propertyIsEnumerable";
   "toLocaleString"; "toString"; "valueOf"; "__proto__";
   "__defineGetter__"; "__defineSetter__"; "__lookupGetter__";
   "__lookupSetter__"].

Definition getToastIcon (type : string) : icon :=
  if String.eqb type "success" then IconClass "check-circle"
  else if String.eqb type "error" then IconClass "exclamation-circle"
  else if String.eqb type "warning" then IconClass "exclamation-triangle"
  else if String.eqb type "info" then IconClass "info-circle"
  else if existsb (String.eqb type) Object_prototype_members
       then IconInherited type
  else IconClass "info-circle".

(** Appends an empty [#toast-container] to the body and returns it. *)
Definition createToastContainer (w : world) : world * list toast :=
  (set_toast_container (Some []) w, []).

(** The new [div] gets its class and its [innerHTML] (the template with
    the icon and [message] substituted as they are, see [toast]), is
    appended to the container, and the timer of its fade is started.
    Elements that the browser builds from markup inside [message] are not
    tracked. *)
Definition showToast (message : string) (type : option string) (w : world) : world :=
  let type := default "info" type in
  let '(w1, children) :=
    match toast_container w with
    | Some children => (w, children)
    | None => createToastContainer w
    end in
  let node := next_node w1 in
  let toast := mkToast node type (getToastIcon type) message false in
  let w2 := set_next_node (S node) w1 in
  let w3 := set_toast_container (Some (children ++ [toast])) w2 in
  setTimeout (ToastFade node) 5000 w3.

(** The outer timeout of [showToast]: [toast.classList.add('fade-out')],
    then the inner timeout. *)
Definition toast_fade (node : nat) (w : world) : world :=
  let mark t :=
    if Nat.eqb (toast_node t) node
    then mkToast (toast_node t) (toast_type t) (toast_icon t)
                 (toast_span t) true
    else t in
  let w1 := set_toast_container (map mark <$> toast_container w) w in
  setTimeout (ToastRemove node) 300 w1.

(** The inner timeout: [toast.remove()]. *)
Definition toast_remove (node : nat) (w : world) : world :=
  set_toast_container
    (filter (fun t => toast_node t ≠ node) <$> toast_container w) w.

(** ** apiRequest *)

Variable network : nat -> request -> fetch_outcome.

(** [fetch(url, options)]: the call is recorded, the network answers. *)
Definition fetch (url : string) (options : request) : M response :=
  fun w =>
    let w' := record_request options w in
    match network (length (requests w)) options with
    | Rejected e => (w', inr e)
    | Responded r => (w', inl r)
    end.

(** [response.json()] *)
Definition response_json (r : response) : M val :=
  match resp_text r with
  | inr e => throw e
  | inl text =>
      match JSON_parse text with
      | inl v => ret v
      | inr msg => throw (SyntaxError msg)
      end
  end.

(** The [options] object built before the [try]. *)
Definition request_options (url : string) (method : option string) (data : val)
  : request :=
  let method := default "GET" method in
  let data := match data with VUndefined => VNull | _ => data end in
  let options := mkRequest url method [("Content-Type", "application/json")] None in
  if ToBoolean data
  then mkRequest url method (req_headers options) (JSON_stringify data)
  else options.

Definition apiRequest (url : string) (method : option string) (data : val) : M val :=
  let options := request_options url method data in
  try_catch
    (let! response := fetch url options in
     let! result := response_json response in
     if negb (resp_ok response)
     then (let! err := lift (get_prop result "error") in
           let! failure := lift (new_Error (if ToBoolean err then err
                                            else VStr "API request failed")) in
           throw failure)
     else ret result)
    (fun error =>
       do! effect (console_error "API Error:" error) in
       do! effect (showToast (err_message error) (Some "error")) in
       throw error).

(** ** Real-time stats update *)

(** The object literal [elements] of the [then] callback, as the list of
    its entries in insertion order (the order of [Object.keys]). *)
Definition stat_elements (data : val) : completion (list (string * val)) :=
  and_then (get_prop data "total_transactions") (fun total =>
  and_then (get_prop data "total_amount") (fun total_amount =>
  and_then (formatCurrency total_amount) (fun amount =>
  and_then (get_prop data "fraud_count") (fun fraud =>
  and_then (get_prop data "fraud_rate") (fun fraud_rate =>
  and_then (toFixed2 "data.fraud_rate.toFixed" fraud_rate) (fun rate =>
  inl [("stat-total", total);
       ("stat-amount", VStr amount);
       ("stat-fraud", fraud);
       ("stat-rate", VStr (rate +:+ "%"))])))))).

(** The body of the [forEach]: write the text if the element exists. *)
Definition set_textContent (id : string) (v : val) : M unit :=
  fun w =>
    match elements w !! id with
    | Some _ =>
        match DOMString_of v with
        | inl text => (set_elements (<[id := text]> (elements w)) w, inl tt)
        | inr e => (w, inr e)
        end
    | None => (w, inl tt)
    end.

(** The [forEach] over the entries; a throw ends it. *)
Fixpoint render (entries : list (string * val)) : M unit :=
  match entries with
  | [] => ret tt
  | (id, v) :: rest => do! set_textContent id v in render rest
  end.

Definition stats_then (data : val) : M unit :=
  let! entries := lift (stat_elements data) in
  render entries.

Definition stats_catch (error : js_error) : M unit :=
  effect (console_error "Failed to update stats:" error).

(** One tick before its [catch]: the request and the [then] callback. *)
Definition stats_request_then : M unit :=
  let! data := apiRequest "/api/stats" None VUndefined in
  stats_then data.

Definition updateStats : M unit :=
  try_catch stats_request_then stats_catch.

(** ** Timers and the event loop *)

Definition run_callback (cb : callback) (w : world) : world :=
  match cb with
  | UpdateStats => (updateStats w).1
  | ToastFade node => toast_fade node w
  | ToastRemove node => toast_remove node w
  end.

(** The pending timer that fires next: the least due time, and among
    equal due times the one registered first. *)
Fixpoint next_timer (ts : list timer) : option (timer * list timer) :=
  match ts with
  | [] => None
  | t :: rest =>
      match next_timer rest with
      | Some (t', rest') =>
          if t_due t <=? t_due t' then Some (t, rest) else Some (t', t :: rest')
      | None => Some (t, [])
      end
  end.

(** Firing [t]: the clock reaches its due time, an interval is armed
    again one period later, and the callback runs. *)
Definition fire (t : timer) (rest : list timer) (w : world) : world :=
  let again :=
    match t_every t with
    | Some period => [mkTimer (t_due t + period) (Some period) (t_callback t)]
    | None => []
    end in
  run_callback (t_callback t)
    (set_timers (rest ++ again) (set_now (Z.max (now w) (t_due t)) w)).

(** Let the clock run to [until], firing every timer due by then;
    [None] when [fuel] callbacks were not enough. *)
Fixpoint advance (fuel : nat) (until : Z) (w : world) : option world :=
  match next_timer (timers w) with
  | Some (t, rest) =>
      if t_due t <=? until then
        match fuel with
        | O => None
        | S fuel' => advance fuel' until (fire t rest w)
        end
      else Some (set_now (Z.max (now w) until) w)
  | None => Some (set_now (Z.max (now w) until) w)
  end.

(** ** The guarded start of the poller *)

(** [s.includes(sub)] *)
Fixpoint includes (s sub : string) : bool :=
  String.prefix sub s ||
  match s with
  | EmptyString => false
  | String _ rest => includes rest sub
  end.

(** The last statement of the module, for [window.location.pathname]. *)
Definition start_poller (pathname : string) (w : world) : world :=
  if includes pathname "dashboard"
  then setInterval UpdateStats 30000 w
  else w.

(** ** Views used by the statements *)

(** The completion of the [try] block of [apiRequest], read off the answer
    of the network. *)
Definition try_outcome (o : fetch_outcome) : completion val :=
  match o with
  | Rejected e => inr e
  | Responded r =>
      match resp_text r with
      | inr e => inr e
      | inl text =>
          match JSON_parse text with
          | inr msg => inr (SyntaxError msg)
          | inl result =>
              if resp_ok r then inl result
              else match get_prop result "error" with
                   | inr e => inr e
                   | inl err =>
                       match new_Error (if ToBoolean err then err
                                        else VStr "API request failed") with
                       | inl failure => inr failure
                       | inr e => inr e
                       end
                   end
          end
      end
  end.

(** The page after the [catch] block of [apiRequest] ran for [e]. *)
Definition reported (e : js_error) (w : world) : world :=
  showToast (err_message e) (Some "error") (console_error "API Error:" e w).

(** The answer the network gives to the call made in [w]. *)
Definition answer (url : string) (method : option string) (data : val)
  (w : world) : fetch_outcome :=
  network (length (requests w)) (request_options url method data).

(** A payload is JSON-serializable when [JSON.stringify] gives a text that
    [JSON.parse] decodes to the payload again. *)
Definition JSON_serializable (P : val) : Prop :=
  exists s, JSON_stringify P = Some s /\ JSON_parse s = inl P.

(** The request fails: the transport fails, the body cannot be read or
    parsed, or the status is not 2xx. *)
Inductive request_failure : fetch_outcome -> Prop :=
| transport_failure e : request_failure (Rejected e)
| body_failure r e : resp_text r = inr e -> request_failure (Responded r)
| parse_failure r text msg :
    resp_text r = inl text -> JSON_parse text = inr msg ->
    request_failure (Responded r)
| status_failure r : resp_ok r = false -> request_failure (Responded r).

(** The toast that [showToast(message, 'error')] appends in [w]. *)
Definition error_toast (message : string) (w : world) : toast :=
  mkToast (next_node w) "error" (IconClass "exclamation-circle") message false.

(** The value of the [error] property of a parsed body, when it has one. *)
Definition error_field (result : val) : option val :=
  match result with
  | VObj fields => own_property fields "error"
  | _ => None
  end.

(** C1 as the specification words it: every serializable payload of a
    POST is the decoded body of the request. *)
Definition body_decodes_to_payload (url : string) (P : val) : Prop :=
  JSON_serializable P ->
  exists s, req_body (request_options url (Some "POST") P) = Some s /\
            JSON_stringify P = Some s /\ JSON_parse s = inl P.

(** C2 as the specification words it: on a non-2xx response with a JSON
    body the message is the [error] field when the body has one, and the
    fallback when it has none. *)
Definition message_is_error_field (url : string) (method : option string)
  (data : val) (w : world) : Prop :=
  forall r text result e,
    answer url method data w = Responded r ->
    resp_ok r = false ->
    resp_text r = inl text ->
    JSON_parse text = inl result ->
    (apiRequest url method data w).2 = inr e ->
    match error_field result with
    | Some v => ToString v = inl (err_message e)
    | None => err_message e = "API request failed"
    end.

(** The four output sinks of the poller. *)
Definition stat_sinks : list string :=
  ["stat-total"; "stat-amount"; "stat-fraud"; "stat-rate"].

(** C3 as the specification words it: when a tick fails (the request or
    the [then] callback throws), none of the four sinks has a new text. *)
Definition failed_tick_writes_nothing (w : world) : Prop :=
  forall e,
    (stats_request_then w).2 = inr e ->
    forall id, id ∈ stat_sinks ->
      elements (updateStats w).1 !! id = elements w !! id.


(** The page after [el.textContent = text] for the element [id], if the
    document has it. *)
Definition write_text (id text : string) (w : world) : world :=
  match elements w !! id with
  | Some _ => set_elements (<[id := text]> (elements w)) w
  | None => w
  end.

(** The texts a successful tick writes, sink by sink. *)
Record stat_texts := mkTexts {
  text_total : string;
  text_amount : string;
  text_fraud : string;
  text_rate : string
}.

(** The page [w'] after a tick that rendered [texts] on the page [w]:
    each sink that exists shows its text, a sink that does not exist still
    does not, and every other element is as before. *)
Definition rendered (texts : stat_texts) (w w' : world) : Prop :=
  (forall id, elements w !! id = None -> elements w' !! id = None) /\
  (is_Some (elements w !! "stat-total") ->
   elements w' !! "stat-total" = Some (text_total texts)) /\
  (is_Some (elements w !! "stat-amount") ->
   elements w' !! "stat-amount" = Some (text_amount texts)) /\
  (is_Some (elements w !! "stat-fraud") ->
   elements w' !! "stat-fraud" = Some (text_fraud texts)) /\
  (is_Some (elements w !! "stat-rate") ->
   elements w' !! "stat-rate" = Some (text_rate texts)) /\
  (forall id, id ∉ stat_sinks -> elements w' !! id = elements w !! id).

(** *** Views of the timers *)

(** The request of a tick. *)
Definition stats_request : request :=
  request_options "/api/stats" None VUndefined.

(** The timer is the recurring poll. *)
Definition is_poll (t : timer) : bool :=
  match t_callback t with
  | UpdateStats => true
  | _ => false
  end.

(** The timer belongs to the toast [node]. *)
Definition mentions (node : nat) (t : timer) : bool :=
  match t_callback t with
  | ToastFade n | ToastRemove n => Nat.eqb n node
  | UpdateStats => false
  end.

Definition toast_ids (w : world) : list nat :=
  map toast_node (default [] (toast_container w)).

(** Every interval has a positive period. *)
Definition periods_positive (ts : list timer) : Prop :=
  Forall (fun t => forall p, t_every t = Some p -> 0 < p) ts.

(** The timer an interval leaves behind when it fires. *)
Definition rearmed (t : timer) : list timer :=
  match t_every t with
  | Some period => [mkTimer (t_due t + period) (Some period) (t_callback t)]
  | None => []
  end.

(** An upper bound on the callbacks that [t] and the timers it starts
    run up to the time [until]. *)
Definition callback_weight (cb : callback) : nat :=
  match cb with
  | UpdateStats => 3
  | ToastFade _ => 2
  | ToastRemove _ => 1
  end.

Definition firings (until : Z) (t : timer) : nat :=
  if t_due t <=? until then
    match t_every t with
    | None => 1
    | Some period => Z.to_nat ((until - t_due t) / period + 1)
    end
  else 0.

Definition timer_weight (until : Z) (t : timer) : nat :=
  (firings until t * callback_weight (t_callback t))%nat.

Fixpoint pending (until : Z) (ts : list timer) : nat :=
  match ts with
  | [] => O
  | t :: rest => (timer_weight until t + pending until rest)%nat
  end.

(** [s] contains [sub] as a substring. *)
Definition contains (s sub : string) : Prop :=
  exists pre post, s = pre +:+ sub +:+ post.

(** The recurring poll is scheduled on the page. *)
Definition polling (w : world) : Prop :=
  exists t, t ∈ timers w /\ is_poll t = true.

(** The recurring poll, due at [due]. *)
Definition poll_timer (due : Z) : timer := mkTimer due (Some 30000) UpdateStats.

Definition poll_timers (w : world) : list timer :=
  filter (fun t => is_poll t = true) (timers w).

(** The poll is scheduled once, for [due], which is not in the past. *)
Definition armed (due : Z) (w : world) : Prop :=
  poll_timers w = [poll_timer due] /\ now w <= due.

(** The requests of [count] ticks, the first at [first], one every
    30000 ms. *)
Definition ticks (first : Z) (count : nat) : list (Z * request) :=
  map (fun i => (first + 30000 * Z.of_nat i, stats_request)) (seq 0 count).

(** The state of the schedule after [k] ticks. *)
Definition on_schedule (w : world) (due until : Z) (w0 : world) : Prop :=
  exists k : nat,
    armed (due + 30000 * Z.of_nat k) w0 /\
    requests w0 = requests w ++ ticks due k /\
    (k = O \/ due + 30000 * (Z.of_nat k - 1) <= until).

(** The pending timers of the toast [node]. *)
Definition node_timers (node : nat) (w : world) : list timer :=
  filter (fun t => mentions node t = true) (timers w).

(** No pending timer belongs to the node that the next toast will be. *)
Definition node_unused (w : world) : Prop :=
  node_timers (next_node w) w = [].

(** The life of the toast [node] created at [created], while the clock
    runs to [until]: shown and waiting to fade, shown and waiting to be
    removed, or removed (which takes [until] to be late enough). *)
Definition toast_life (node : nat) (created until : Z) (w : world) : Prop :=
  (node < next_node w)%nat /\
  ((node ∈ toast_ids w /\
    node_timers node w = [mkTimer (created + 5000) None (ToastFade node)] /\
    now w <= created + 5000) \/
   (node ∈ toast_ids w /\
    node_timers node w = [mkTimer (created + 5300) None (ToastRemove node)] /\
    now w <= created + 5300) \/
   ((node ∉ toast_ids w) /\ created + 5300 <= until)).

(** Every timer of a toast belongs to a node below [bound]. *)
Definition nodes_below (bound : nat) (ts : list timer) : Prop :=
  Forall (fun t => forall n, mentions n t = true -> (n < bound)%nat) ts.

(** Every timer of a toast belongs to a node that was created. *)
Definition nodes_known (w : world) : Prop :=
  nodes_below (next_node w) (timers w).

(** What every page built by the script satisfies. *)
Definition well_formed (w : world) : Prop :=
  periods_positive (timers w) /\ nodes_known w.

End Script.

(** ** A host with integer numbers

    A small host to run the script on: its numbers are the integers and
    [NaN], its JSON is the fragment without fractions, exponents and
    escapes of characters past U+007F; a text outside the fragment does not
    parse. *)
Module IntegerHost.

Definition num : Type := option Z.

Definition dquote : ascii := Ascii false true false false false true false false.
Definition backslash : ascii := Ascii false false true true true false true false.

Definition quoted (s : string) : string :=
  String dquote (s +:+ String dquote "").

Definition falsy (n : num) : bool :=
  match n with
  | Some z => z =? 0
  | None => true
  end.

Definition to_string (n : num) : string :=
  match n with
  | Some z => pretty z
  | None => "NaN"
  end.

Fixpoint zeros (digits : nat) : string :=
  match digits with
  | O => ""
  | S d => String "0" (zeros d)
  end.

Definition to_fixed (digits : nat) (n : num) : string :=
  match n, digits with
  | None, _ => "NaN"
  | Some z, O => pretty z
  | Some z, _ => pretty z +:+ "." +:+ zeros digits
  end.

(** Thousands separators, on the reversed digits. *)
Fixpoint group_rev (k : nat) (cs : list ascii) : list ascii :=
  match cs with
  | [] => []
  | c :: rest =>
      match k with
      | O => ","%char :: c :: group_rev 2 rest
      | S k' => c :: group_rev k' rest
      end
  end.

Definition grouped (z : Z) : string :=
  String.string_of_list_ascii
    (rev (group_rev 3 (rev (String.list_ascii_of_string (pretty (Z.abs z)))))).

Definition usd (n : num) : string :=
  match n with
  | None => "$NaN"
  | Some z => (if z <? 0 then "-$" else "$") +:+ grouped z +:+ ".00"
  end.

Definition digit_of (c : ascii) : option Z :=
  let n := Z.of_nat (nat_of_ascii c) in
  if (48 <=? n) && (n <=? 57) then Some (n - 48) else None.

Fixpoint read_digits (acc : Z) (cs : list ascii) : Z * list ascii :=
  match cs with
  | [] => (acc, [])
  | c :: rest =>
      match digit_of c with
      | Some d => read_digits (10 * acc + d) rest
      | None => (acc, cs)
      end
  end.

(** An integer literal at the head of [cs]. *)
Definition read_int (cs : list ascii) : option (Z * list ascii) :=
  let '(neg, ds) :=
    match cs with
    | "-"%char :: rest => (true, rest)
    | _ => (false, cs)
    end in
  match ds with
  | "0"%char :: rest =>
      match rest with
      | d :: _ =>
          match digit_of d with
          | Some _ => None
          | None => Some (0, rest)
          end
      | [] => Some (0, rest)
      end
  | c :: _ =>
      match digit_of c with
      | Some _ =>
          let '(n, rest) := read_digits 0 ds in
          Some (if neg then - n else n, rest)
      | None => None
      end
  | [] => None
  end.

Definition number_of_text (s : string) : num :=
  match read_int (String.list_ascii_of_string s) with
  | Some (z, []) => Some z
  | _ => if String.eqb s "" then Some 0 else None
  end.

Definition usd_text (s : string) : string := usd (number_of_text s).

Definition hex_digit (n : N) : ascii :=
  ascii_of_N (if (n <? 10)%N then 48 + n else 87 + n).

(** The escapes of [JSON.stringify]. *)
Fixpoint escape (cs : list ascii) : list ascii :=
  match cs with
  | [] => []
  | c :: rest =>
      let n := N_of_ascii c in
      (if Ascii.eqb c dquote || Ascii.eqb c backslash then [backslash; c]
       else if (n =? 8)%N then [backslash; "b"%char]
       else if (n =? 9)%N then [backslash; "t"%char]
       else if (n =? 10)%N then [backslash; "n"%char]
       else if (n =? 12)%N then [backslash; "f"%char]
       else if (n =? 13)%N then [backslash; "r"%char]
       else if (n <? 32)%N
       then [backslash; "u"%char; "0"%char; "0"%char;
             hex_digit (n / 16); hex_digit (n mod 16)]
       else [c]) ++ escape rest
  end.

Definition json_string (s : string) : string :=
  quoted (String.string_of_list_ascii (escape (String.list_ascii_of_string s))).

Fixpoint join_with (sep : string) (l : list string) : string :=
  match l with
  | [] => ""
  | [s] => s
  | s :: rest => s +:+ sep +:+ join_with sep rest
  end.

(** The text of a value inside an array or as a property value. *)
Fixpoint json_text (v : value num) : string :=
  match v with
  | VUndefined | VNull | VNum None => "null"
  | VBool true => "true"
  | VBool false => "false"
  | VNum (Some z) => pretty z
  | VStr s => json_string s
  | VArr items => "[" +:+ join_with "," (map json_text items) +:+ "]"
  | VObj fields =>
      "{" +:+
      join_with ","
        (flat_map (fun kv => match kv.2 with
                             | VUndefined => []
                             | _ => [json_string kv.1 +:+ ":" +:+ json_text kv.2]
                             end) fields)
      +:+ "}"
  end.

Definition stringify (v : value num) : option string :=
  match v with
  | VUndefined => None
  | _ => Some (json_text v)
  end.

Definition hex_value (c : ascii) : option N :=
  let n := N_of_ascii c in
  if ((48 <=? n) && (n <=? 57))%N then Some (n - 48)%N
  else if ((97 <=? n) && (n <=? 102))%N then Some (n - 87)%N
  else if ((65 <=? n) && (n <=? 70))%N then Some (n - 55)%N
  else None.

(** The character of an escape, and what follows the escape. *)
Definition read_escape (cs : list ascii) : option (ascii * list ascii) :=
  match cs with
  | "u"%char :: a :: b :: c :: d :: rest =>
      match hex_value a, hex_value b, hex_value c, hex_value d with
      | Some 0%N, Some 0%N, Some h, Some l =>
          if (h <? 8)%N then Some (ascii_of_N (16 * h + l), rest) else None
      | _, _, _, _ => None
      end
  | e :: rest =>
      if Ascii.eqb e dquote || Ascii.eqb e backslash || Ascii.eqb e "/"%char
      then Some (e, rest)
      else if Ascii.eqb e "b"%char then Some (ascii_of_N 8, rest)
      else if Ascii.eqb e "t"%char then Some (ascii_of_N 9, rest)
      else if Ascii.eqb e "n"%char then Some (ascii_of_N 10, rest)
      else if Ascii.eqb e "f"%char then Some (ascii_of_N 12, rest)
      else if Ascii.eqb e "r"%char then Some (ascii_of_N 13, rest)
      else None
  | [] => None
  end.

(** The characters of a string literal after its opening quote; a
    control character stands in no literal. *)
Fixpoint read_string (fuel : nat) (acc : list ascii) (cs : list ascii)
  : option (string * list ascii) :=
  match fuel with
  | O => None
  | S fuel' =>
      match cs with
      | [] => None
      | c :: rest =>
          if Ascii.eqb c dquote
          then Some (String.string_of_list_ascii (rev acc), rest)
          else if Ascii.eqb c backslash then
            match read_escape rest with
            | Some (e, rest') => read_string fuel' (e :: acc) rest'
            | None => None
            end
          else if (N_of_ascii c <? 32)%N then None
          else read_string fuel' (c :: acc) rest
      end
  end.

(** White space between the tokens. *)
Fixpoint skip_space (cs : list ascii) : list ascii :=
  match cs with
  | c :: rest =>
      let n := N_of_ascii c in
      if ((n =? 32) || (n =? 9) || (n =? 10) || (n =? 13))%N
      then skip_space rest else cs
  | [] => []
  end.

Fixpoint member (fields : list (string * value num)) (k : string)
  : option (value num) :=
  match fields with
  | [] => None
  | (k', v) :: rest => if String.eqb k' k then Some v else member rest k
  end.

(** A member read before [fields]: when the key comes again later, the
    object keeps the place of the first and the value of the last. *)
Definition add_member (k : string) (v : value num)
  (fields : list (string * value num)) : list (string * value num) :=
  match member fields k with
  | Some last => (k, last) :: filter (fun kv => kv.1 ≠ k) fields
  | None => (k, v) :: fields
  end.

Fixpoint read_value (fuel : nat) (cs : list ascii)
  : option (value num * list ascii) :=
  match fuel with
  | O => None
  | S fuel' =>
      match skip_space cs with
      | "n"%char :: "u"%char :: "l"%char :: "l"%char :: rest => Some (VNull, rest)
      | "t"%char :: "r"%char :: "u"%char :: "e"%char :: rest =>
          Some (VBool true, rest)
      | "f"%char :: "a"%char :: "l"%char :: "s"%char :: "e"%char :: rest =>
          Some (VBool false, rest)
      | "["%char :: rest =>
          match skip_space rest with
          | "]"%char :: rest' => Some (VArr [], rest')
          | _ =>
              match read_items fuel' rest with
              | Some (items, rest') => Some (VArr items, rest')
              | None => None
              end
          end
      | "{"%char :: rest =>
          match skip_space rest with
          | "}"%char :: rest' => Some (VObj [], rest')
          | _ =>
              match read_members fuel' rest with
              | Some (fields, rest') => Some (VObj fields, rest')
              | None => None
              end
          end
      | c :: rest =>
          if Ascii.eqb c dquote then
            match read_string (length rest) [] rest with
            | Some (s, rest') => Some (VStr s, rest')
            | None => None
            end
          else
            match read_int (c :: rest) with
            | Some (z, rest') => Some (VNum (Some z), rest')
            | None => None
            end
      | [] => None
      end
  end
with read_items (fuel : nat) (cs : list ascii)
  : option (list (value num) * list ascii) :=
  match fuel with
  | O => None
  | S fuel' =>
      match read_value fuel' cs with
      | Some (v, rest0) =>
          match skip_space rest0 with
          | ","%char :: rest =>
              match read_items fuel' rest with
              | Some (vs, rest') => Some (v :: vs, rest')
              | None => None
              end
          | "]"%char :: rest => Some ([v], rest)
          | _ => None
          end
      | None => None
      end
  end
with read_members (fuel : nat) (cs : list ascii)
  : option (list (string * value num) * list ascii) :=
  match fuel with
  | O => None
  | S fuel' =>
      match skip_space cs with
      | c :: rest =>
          if Ascii.eqb c dquote then
            match read_string (length rest) [] rest with
            | Some (k, rest0) =>
                match skip_space rest0 with
                | ":"%char :: rest1 =>
                    match read_value fuel' rest1 with
                    | Some (v, rest2) =>
                        match skip_space rest2 with
                        | ","%char :: rest3 =>
                            match read_members fuel' rest3 with
                            | Some (fields, rest4) =>
                                Some (add_member k v fields, rest4)
                            | None => None
                            end
                        | "}"%char :: rest3 => Some ([(k, v)], rest3)
                        | _ => None
                        end
                    | None => None
                    end
                | _ => None
                end
            | None => None
            end
          else None
      | [] => None
      end
  end.

Definition parse (text : string) : value num + string :=
  let cs := String.list_ascii_of_string text in
  match read_value (S (length cs)) cs with
  | Some (v, rest) =>
      match skip_space rest with
      | [] => inl v
      | _ => inr "Unexpected token in JSON"
      end
  | None => inr "Unexpected token in JSON"
  end.

Definition cannot_read (v : value num) (p : string) : string :=
  "Cannot read properties of " +:+
  match v with VNull => "null" | _ => "undefined" end +:+
  " (reading '" +:+ p +:+ "')".

Definition not_a_function (expr : string) : string :=
  expr +:+ " is not a function".

Definition host : Host := {|
  number := num;
  NaN := None;
  Number_of_Z := Some;
  Number_falsy := falsy;
  Number_toString := to_string;
  Number_toFixed := to_fixed;
  Intl_format_USD := usd;
  Intl_format_USD_text := usd_text;
  JSON_stringify := stringify;
  JSON_parse := parse;
  msg_cannot_read := cannot_read;
  msg_not_a_function := not_a_function;
  msg_cannot_convert := "Cannot convert object to primitive value"
|}.

End IntegerHost.

(** ** A dashboard page and some networks, on the integer host *)
Module Scenario.

Import IntegerHost.

(** A dashboard page that shows three of the four sinks. *)
Definition page : world :=
  mkWorld 0
    (<["stat-total" := "0"]> (<["stat-amount" := "$0.00"]>
       (<["stat-rate" := "0.00%"]> ∅)))
    None 0 [] [] [].

(** The same page with the fourth sink. *)
Definition full_page : world :=
  set_elements (<["stat-fraud" := "0"]> (elements page)) page.

Definition snapshot : value num :=
  VObj [("total_transactions", VNum (Some 120));
        ("total_amount", VNum (Some 1234));
        ("fraud_count", VNum (Some 3));
        ("fraud_rate", VNum (Some 2))].



Definition payload : value num :=
  VObj [("amount", VNum (Some 250)); ("merchant", VStr "ACME")].

Definition respond (status : Z) (body : value num) : fetch_outcome :=
  Responded (mkResponse status (inl (json_text body))).

Definition net_ok : nat -> request -> fetch_outcome :=
  fun _ _ => respond 200 snapshot.

Definition net_down : nat -> request -> fetch_outcome :=
  fun _ _ => Rejected (mkError "TypeError" "Failed to fetch").

(** The first call fails, the later ones succeed. *)
Definition net_flaky : nat -> request -> fetch_outcome :=
  fun n _ => if Nat.eqb n 0 then Rejected (mkError "TypeError" "Failed to fetch")
             else respond 200 snapshot.

Definition net_forbidden : nat -> request -> fetch_outcome :=
  fun _ _ => respond 403 (VObj [("error", VStr "Forbidden")]).

Definition net_empty_error : nat -> request -> fetch_outcome :=
  fun _ _ => respond 400 (VObj [("error", VStr "")]).

Definition net_gateway : nat -> request -> fetch_outcome :=
  fun _ _ => Responded (mkResponse 502 (inl "<html>Bad Gateway</html>")).

(** A snapshot whose fraud count is an object with a [toString] entry. *)
Definition odd_count : list (string * value num) :=
  [("total_transactions", VNum (Some 120));
   ("total_amount", VNum (Some 1234));
   ("fraud_count", VObj [("toString", VNum (Some 0))]);
   ("fraud_rate", VNum (Some 2))].



Definition net_fields (fields : list (string * value num))
  : nat -> request -> fetch_outcome :=
  fun _ _ => respond 200 (VObj fields).

End Scenario.

(** ** Export of a table to CSV *)
Module Csv.

Definition dquote : ascii := IntegerHost.dquote.
Definition newline : ascii := Ascii false true false true false false false false.

(** The [replace] of the cell: every quote is written twice. *)
Fixpoint double_quotes (s : string) : string :=
  match s with
  | EmptyString => EmptyString
  | String c rest =>
      if Ascii.eqb c dquote
      then String dquote (String dquote (double_quotes rest))
      else String c (double_quotes rest)
  end.

(** The entry pushed for one cell: its text between quotes. *)
Definition csv_cell (text : string) : string :=
  String dquote (double_quotes text +:+ String dquote "").

(** [rowData.join(',')] *)
Definition csv_row (cells : list string) : string :=
  join "," (map csv_cell cells).

(** [csv.join('\n')] *)
Definition csv_content (rows : list (list string)) : string :=
  join (String newline "") (map csv_row rows).

(** What the clicked link downloads. *)
Record download := mkDownload {
  dl_filename : string;
  dl_type : string;
  dl_content : string
}.

Section ExportTable.

Context `{H : Host}.

(** The table is given as the script reads it: for every [tr] under the
    element, in document order, the [textContent] of its [td] and [th]
    descendants; [None] when no element has the id. *)
Definition exportTableToCSV (table : option (list (list string)))
  (filename : string) : completion download :=
  match table with
  | None => inr (TypeError (msg_cannot_read VNull "querySelectorAll"))
  | Some rows =>
      inl (mkDownload filename "text/csv;charset=utf-8;" (csv_content rows))
  end.

End ExportTable.

(** *** A reader of quoted CSV, to state what the export keeps *)

Inductive reader := AtField | InText | AfterQuote.

(** [field] and [row] are the characters and the fields read so far, last
    first; [rows] the finished records, last first. *)
Fixpoint csv_read (st : reader) (field : list ascii) (row : list string)
  (rows : list (list string)) (s : string) : option (list (list string)) :=
  match s with
  | EmptyString =>
      match st with
      | AfterQuote =>
          Some (rev (rev (String.string_of_list_ascii (rev field) :: row) :: rows))
      | _ => None
      end
  | String c rest =>
      match st with
      | AtField =>
          if Ascii.eqb c dquote then csv_read InText [] row rows rest else None
      | InText =>
          if Ascii.eqb c dquote then csv_read AfterQuote field row rows rest
          else csv_read InText (c :: field) row rows rest
      | AfterQuote =>
          if Ascii.eqb c dquote then csv_read InText (c :: field) row rows rest
          else if Ascii.eqb c ","%char
          then csv_read AtField []
                 (String.string_of_list_ascii (rev field) :: row) rows rest
          else if Ascii.eqb c newline
          then csv_read AtField [] []
                 (rev (String.string_of_list_ascii (rev field) :: row) :: rows)
                 rest
          else None
      end
  end.

Definition csv_decode (s : string) : option (list (list string)) :=
  match s with
  | EmptyString => Some []
  | _ => csv_read AtField [] [] [] s
  end.

(** A table with a header and a cell that holds a comma, a quote and a
    line break. *)
Definition sample_table : list (list string) :=
  [["Id"; "Note"];
   ["17"; "a," +:+ String dquote ("b" +:+ String newline "c")];
   [""]].

End Csv.

(** ** Validation of the required fields of a form *)
Module Form.

(** A text of the page, as its UTF-16 code units. *)
Definition text : Type := list N.

(** White space and line terminators, what [trim] removes. *)
Definition is_space (u : N) : bool :=
  ((9 <=? u) && (u <=? 13) || (u =? 32) || (u =? 160) || (u =? 5760) ||
   (8192 <=? u) && (u <=? 8202) || (u =? 8232) || (u =? 8233) ||
   (u =? 8239) || (u =? 8287) || (u =? 12288) || (u =? 65279))%N.

Fixpoint trim_start (s : text) : text :=
  match s with
  | u :: rest => if is_space u then trim_start rest else s
  | [] => []
  end.

Definition trim_end (s : text) : text := rev (trim_start (rev s)).

Definition trim (s : text) : text := trim_end (trim_start s).

(** What [element.value] answers: a text for a form control, a number for
    a list item, a meter or a progress bar, [undefined] for any other
    element. *)
Inductive field_value :=
| TextValue (s : text)
| NumberValue
| NoValue.

(** An element under the form: whether it has the attribute [required],
    its value and the tokens of its class. *)
Record control := mkControl {
  ctl_required : bool;
  ctl_value : field_value;
  ctl_classes : list string
}.

(** [classList.add(token)] and [classList.remove(token)] *)
Definition classList_add (token : string) (classes : list string) : list string :=
  if bool_decide (token ∈ classes) then classes else classes ++ [token].

Definition classList_remove (token : string) (classes : list string)
  : list string :=
  filter (fun t => t ≠ token) classes.

Definition set_classes (classes : list string) (c : control) : control :=
  mkControl (ctl_required c) (ctl_value c) classes.

Section Validate.

Context `{H : Host}.

(** The [forEach] over the required elements, on the elements under the
    form in document order; a throw ends it and leaves the rest as it was. *)
Fixpoint validate_each (controls : list control) (isValid : bool)
  : list control * completion bool :=
  match controls with
  | [] => ([], inl isValid)
  | c :: rest =>
      if ctl_required c then
        match ctl_value c with
        | TextValue v =>
            match trim v with
            | [] =>
                let '(rest', r) := validate_each rest false in
                (set_classes (classList_add "is-invalid" (ctl_classes c)) c
                   :: rest', r)
            | _ :: _ =>
                let '(rest', r) := validate_each rest isValid in
                (set_classes (classList_remove "is-invalid" (ctl_classes c)) c
                   :: rest', r)
            end
        | NumberValue =>
            (controls, inr (TypeError (msg_not_a_function "input.value.trim")))
        | NoValue =>
            (controls, inr (TypeError (msg_cannot_read VUndefined "trim")))
        end
      else
        let '(rest', r) := validate_each rest isValid in (c :: rest', r)
  end.

(** [form] is the list of the elements under the element with the id, or
    [None] when the document has none. *)
Definition validateForm (form : option (list control))
  : option (list control) * completion bool :=
  match form with
  | None => (None, inr (TypeError (msg_cannot_read VNull "querySelectorAll")))
  | Some controls =>
      let '(controls', r) := validate_each controls true in
      (Some controls', r)
  end.

End Validate.

(** *** Views used by the statements *)

(** The value is empty or white space only. *)
Definition blank (v : text) : bool := forallb is_space v.

(** The element is one that the validation can read. *)
Definition readable (c : control) : Prop :=
  ctl_required c = true -> exists v, ctl_value c = TextValue v.

(** The required element fails the validation. *)
Definition missing (c : control) : bool :=
  ctl_required c &&
  match ctl_value c with
  | TextValue v => blank v
  | _ => false
  end.

(** The element [c'] is [c] after the validation: a required element has
    the token [is-invalid] exactly when it fails, its other tokens are the
    ones it had, in their order, and nothing else changed; any other element
    is as it was. *)
Definition marked (c c' : control) : Prop :=
  ctl_required c' = ctl_required c /\
  ctl_value c' = ctl_value c /\
  (ctl_required c = false -> ctl_classes c' = ctl_classes c) /\
  (ctl_required c = true ->
   ("is-invalid" ∈ ctl_classes c' <-> missing c = true) /\
   filter (fun t => t ≠ "is-invalid") (ctl_classes c') =
   filter (fun t => t ≠ "is-invalid") (ctl_classes c)).

Definition sample_form : list control :=
  [mkControl true (TextValue [74; 111]%N) ["form-control"; "is-invalid"];
   mkControl true (TextValue [32; 160; 9]%N) ["form-control"];
   mkControl false (TextValue []) ["form-control"];
   mkControl true (TextValue []) []].

End Form.

(** ** debounce *)
Module Debounce.

(** [setTimeout] takes its delay as a WebIDL [long]: a whole number of
    milliseconds is reduced modulo 2^32 into the signed 32-bit range, and a
    negative result counts as zero. *)
Definition ToInt32 (z : Z) : Z :=
  (z + 2147483648) mod 4294967296 - 2147483648.

Definition timer_delay (wait : Z) : Z := Z.max 0 (ToInt32 wait).

Section Debounced.

(** The arguments of a call of the debounced function. *)
Context {A : Type}.

(** A pending timer of [later]: its handle, its due time and the
    arguments its closure holds. *)
Record pending_call := mkPending { p_handle : nat; p_due : Z; p_args : A }.

(** The closure that [debounce] returns and the clock it runs on:
    [db_timeout] is its variable [timeout] ([None] is [undefined]) and
    [db_calls] lists the calls of [func] with their times. *)
Record state := mkState {
  db_now : Z;
  db_timeout : option nat;
  db_timers : list pending_call;
  db_next : nat;
  db_calls : list (Z * A)
}.

(** [clearTimeout(timeout)] *)
Definition clearTimeout (handle : option nat) (timers : list pending_call)
  : list pending_call :=
  match handle with
  | None => timers
  | Some h => filter (fun p => p_handle p ≠ h) timers
  end.

(** [executedFunction(...args)], with [wait] the delay given to
    [debounce], a whole number of milliseconds. *)
Definition executedFunction (wait : Z) (args : A) (s : state) : state :=
  let timers := clearTimeout (db_timeout s) (db_timers s) in
  let handle := db_next s in
  mkState (db_now s) (Some handle)
          (timers ++ [mkPending handle (db_now s + timer_delay wait) args])
          (S handle) (db_calls s).

(** [later], for the timer that holds [args]. *)
Definition later (args : A) (s : state) : state :=
  mkState (db_now s) (db_timeout s)
          (clearTimeout (db_timeout s) (db_timers s))
          (db_next s) (db_calls s ++ [(db_now s, args)]).

Definition at_time (t : Z) (s : state) : state :=
  mkState (Z.max (db_now s) t) (db_timeout s) (db_timers s) (db_next s)
          (db_calls s).

(** The pending timer that fires next. *)
Fixpoint next_due (ts : list pending_call)
  : option (pending_call * list pending_call) :=
  match ts with
  | [] => None
  | p :: rest =>
      match next_due rest with
      | Some (p', rest') =>
          if p_due p <=? p_due p' then Some (p, rest) else Some (p', p :: rest')
      | None => Some (p, [])
      end
  end.

(** The timer is due when the clock stands at [until]: its time has
    passed, or it is [until] and the timers of that time have had their
    turn ([inclusive]). *)
Definition is_due (inclusive : bool) (until : Z) (p : pending_call) : bool :=
  (p_due p <? until) || (inclusive && (p_due p =? until)).

(** The clock runs to [until]; each timer that is due fires at its time.
    [later] starts no timer, so there are at most as many firings as
    pending timers. *)
Fixpoint run_until (inclusive : bool) (fuel : nat) (until : Z) (s : state)
  : state :=
  match fuel with
  | O => at_time until s
  | S fuel' =>
      match next_due (db_timers s) with
      | Some (p, rest) =>
          if is_due inclusive until p then
            run_until inclusive fuel' until
              (later (p_args p)
                 (mkState (Z.max (db_now s) (p_due p)) (db_timeout s) rest
                          (db_next s) (db_calls s)))
          else at_time until s
      | None => at_time until s
      end
  end.

Definition pass (inclusive : bool) (until : Z) (s : state) : state :=
  run_until inclusive (length (db_timers s)) until s.

(** A call of the debounced function at the time [call.1].  The timers
    due before that time have fired.  A timer due at that very time has
    fired when [timer_first] says so: the event loop may run it before the
    handler that makes the call, and it cannot run between two calls made
    by one handler. *)
Definition call_at (timer_first : bool) (wait : Z) (call : Z * A) (s : state)
  : state :=
  executedFunction wait call.2 (pass timer_first call.1 s).

(** A series of calls; [first i] is the order at the call number [i]. *)
Fixpoint run_calls (first : nat -> bool) (i : nat) (wait : Z)
  (calls : list (Z * A)) (s : state) : state :=
  match calls with
  | [] => s
  | call :: rest =>
      run_calls first (S i) wait rest (call_at (first i) wait call s)
  end.

(** A series of calls, then the clock runs to [until] and the timers due
    by then fire. *)
Definition play (first : nat -> bool) (wait : Z) (calls : list (Z * A))
  (until : Z) (s : state) : state :=
  pass true until (run_calls first O wait calls s).

(** The closure when [debounce] returns it, at the time [t]. *)
Definition fresh (t : Z) : state := mkState t None [] O [].

(** *** Views used by the statements *)

(** The calls of [func] that a series of calls leads to: the timer of a
    call fires, [delay] after it, unless the next call comes before that;
    [waiting] is the timer of the call before. *)
Fixpoint invocations (delay : Z) (waiting : option (Z * A))
  (calls : list (Z * A)) (until : Z) : list (Z * A) :=
  match calls with
  | [] =>
      match waiting with
      | Some (due, args) => if due <=? until then [(due, args)] else []
      | None => []
      end
  | (t, args) :: rest =>
      match waiting with
      | Some (due, a) => if due <? t then [(due, a)] else []
      | None => []
      end ++ invocations delay (Some (t + delay, args)) rest until
  end.

(** The times of the calls do not go back, from [start] on. *)
Fixpoint in_time (start : Z) (calls : list (Z * A)) : Prop :=
  match calls with
  | [] => True
  | (t, _) :: rest => start <= t /\ in_time t rest
  end.

(** No call comes at the very time the timer of the call before is due. *)
Fixpoint apart (delay : Z) (calls : list (Z * A)) : Prop :=
  match calls with
  | (t, _) :: (((t', _) :: _) as rest) => t' <> t + delay /\ apart delay rest
  | _ => True
  end.

(** The first call does not come at the very time the waiting timer is
    due. *)
Definition clear_of (waiting : option (Z * A)) (calls : list (Z * A))
  : Prop :=
  match waiting, calls with
  | Some (due, _), (t, _) :: _ => t <> due
  | _, _ => True
  end.

(** Each call comes less than [delay] after the one before. *)
Fixpoint burst (delay : Z) (calls : list (Z * A)) : Prop :=
  match calls with
  | (t, _) :: (((t', _) :: _) as rest) => t' < t + delay /\ burst delay rest
  | _ => True
  end.

(** The closure is idle, or waits for its one timer. *)
Definition settled (s : state) : Prop :=
  db_timers s = [] \/
  exists p, db_timers s = [p] /\ db_timeout s = Some (p_handle p) /\
            db_now s <= p_due p.

End Debounced.

(** The timer the closure waits for. *)
Definition waiting_of {A : Type} (s : @state A) : option (Z * A) :=
  match db_timers s with
  | [p] => Some (p_due p, p_args p)
  | _ => None
  end.

(** Keystrokes in a search box: two in short order, a third later. *)
Definition sample_calls : list (Z * string) :=
  [(0, "a"); (100, "ab"); (500, "abc")].

(** The first two of three keystrokes in short order. *)
Definition sample_burst : list (Z * string) := [(0, "a"); (100, "ab")].

(** The timers of the sample run before a call at their time. *)
Definition timers_first : nat -> bool := fun _ => true.

End Debounce.

(** ** handleSearch *)
Module Search.

(** A row of the table: the texts of its [td] cells, in document order,
    and the [display] property of its inline style. *)
Record row := mkRow { row_cells : list string; row_display : string }.

Section Search.

Context `{H : Host}.

(** [String.prototype.toLowerCase] *)
Variable toLowerCase : string -> string.

(** The inner loop: some cell holds the filter; [indexOf] finds the
    empty text in every text. *)
Definition found (filter : string) (cells : list string) : bool :=
  existsb (fun text => includes (toLowerCase text) filter) cells.

(** The body of the outer loop. *)
Definition show (filter : string) (r : row) : row :=
  mkRow (row_cells r) (if found filter (row_cells r) then "" else "none").

(** The outer loop, which starts at the second row. *)
Definition search_rows (value : string) (rows : list row) : list row :=
  let filter := toLowerCase value in
  match rows with
  | [] => []
  | head :: body => head :: map (show filter) body
  end.

(** The function that [handleSearch] debounces, for the text of the
    search box and the rows of the element [tableId], [None] when the
    document has no such element. *)
Definition search (value : string) (table : option (list row))
  : completion (list row) :=
  match table with
  | None => inr (TypeError (msg_cannot_read VNull "getElementsByTagName"))
  | Some rows => inl (search_rows value rows)
  end.

End Search.

(** Lower case for the letters A to Z. *)
Definition lower_letter (c : ascii) : ascii :=
  let n := N_of_ascii c in
  if ((65 <=? n) && (n <=? 90))%N then ascii_of_N (n + 32) else c.

Fixpoint lower_letters (s : string) : string :=
  match s with
  | EmptyString => EmptyString
  | String c rest => String (lower_letter c) (lower_letters rest)
  end.

(** A table of accounts: a header row of [th] cells, two accounts, and
    a section row without [td] cells. *)
Definition sample_rows : list row :=
  [mkRow [] "";
   mkRow ["Alice"; "Savings"] "";
   mkRow [] "";
   mkRow ["Bob"; "Checking"] "none"].

End Search.

(** ** togglePassword *)
Module Password.

Import Form.

(** The login form: the [type] of the input [password] and the tokens of
    the class of [password-icon]; [None] for an element that the document
    does not have. *)
Record login := mkLogin {
  password_type : option string;
  icon_classes : option (list string)
}.

Definition togglePassword (d : login) : login :=
  match password_type d, icon_classes d with
  | Some type, Some classes =>
      if String.eqb type "password" then
        mkLogin (Some "text")
                (Some (classList_add "bi-eye-slash"
                         (classList_remove "bi-eye" classes)))
      else
        mkLogin (Some "password")
                (Some (classList_add "bi-eye"
                         (classList_remove "bi-eye-slash" classes)))
  | _, _ => d
  end.

(** *** Views used by the statements *)

(** The icon tells what a click will do: the open eye while the password
    is hidden, the struck eye while it is shown as text. *)
Definition agrees (d : login) : Prop :=
  exists classes,
    icon_classes d = Some classes /\
    ((password_type d = Some "password" /\
      "bi-eye" ∈ classes /\ "bi-eye-slash" ∉ classes) \/
     (password_type d = Some "text" /\
      "bi-eye-slash" ∈ classes /\ "bi-eye" ∉ classes)).

(** The two forms have the same tokens on the icon. *)
Definition same_tokens (d d' : login) : Prop :=
  forall token,
    token ∈ default [] (icon_classes d') <->
    token ∈ default [] (icon_classes d).

(** The login page as it is served, and a page whose icon carries both
    tokens. *)
Definition sample_login : login :=
  mkLogin (Some "password") (Some ["bi"; "bi-eye"]).

Definition odd_login : login :=
  mkLogin (Some "email") (Some ["bi-eye"; "bi"; "bi-eye-slash"]).

End Password.

(** ** Further views of the page *)

(** A series of toasts, one call of [showToast] each. *)
Definition show_all (calls : list (string * option string)) (w : world)
  : world :=
  foldl (fun w' call => showToast call.1 call.2 w') w calls.

(** The toast and the timer that the call number [i] of a series leaves,
    the series starting on the page [w]. *)
Definition nth_toast (w : world) (i : nat) (call : string * option string)
  : toast :=
  mkToast (next_node w + i) (default "info" call.2)
          (getToastIcon (default "info" call.2)) call.1 false.

Definition nth_fade (w : world) (i : nat) (call : string * option string)
  : timer :=
  mkTimer (now w + 5000) None (ToastFade (next_node w + i)).



Section ScriptFacts.

Context `{H : Host}.
Variable network : nat -> request -> fetch_outcome.

Abbreviation val := (value number).

(** *** The request helper, case by case *)

Lemma apiRequest_eq url method data w :
  apiRequest network url method data w =
  let w1 := record_request (request_options url method data) w in
  match try_outcome (answer network url method data w) with
  | inl v => (w1, inl v)
  | inr e => (reported e w1, inr e)
  end.
Proof.
  unfold apiRequest, answer, try_catch, bind, fetch, try_outcome. cbn.
  destruct (network _ _) as [e|r]; [reflexivity|].
  unfold response_json.
  destruct (resp_text r) as [text|e]; [|reflexivity].
  destruct (JSON_parse text) as [result|msg]; [|reflexivity].
  unfold ret. destruct (resp_ok r); cbn; [reflexivity|].
  unfold lift. destruct (get_prop result "error") as [err|e]; [|reflexivity].
  destruct (new_Error _); reflexivity.
Qed.

Lemma showToast_container msg type w :
  toast_container (showToast msg type w) =
  Some (default [] (toast_container w) ++
        [mkToast (next_node w) (default "info" type)
                 (getToastIcon (default "info" type)) msg false]).
Proof. unfold showToast. destruct (toast_container w); reflexivity. Qed.

Lemma showToast_elements msg type w :
  elements (showToast msg type w) = elements w.
Proof. unfold showToast. destruct (toast_container w); reflexivity. Qed.

Lemma showToast_requests msg type w :
  requests (showToast msg type w) = requests w.
Proof. unfold showToast. destruct (toast_container w); reflexivity. Qed.

Lemma showToast_console msg type w :
  console (showToast msg type w) = console w.
Proof. unfold showToast. destruct (toast_container w); reflexivity. Qed.

Lemma showToast_now msg type w : now (showToast msg type w) = now w.
Proof. unfold showToast. destruct (toast_container w); reflexivity. Qed.

Lemma showToast_next_node msg type w :
  next_node (showToast msg type w) = S (next_node w).
Proof. unfold showToast. destruct (toast_container w); reflexivity. Qed.

Lemma showToast_timers msg type w :
  timers (showToast msg type w) =
  timers w ++ [mkTimer (now w + 5000) None (ToastFade (next_node w))].
Proof. unfold showToast. destruct (toast_container w); reflexivity. Qed.

Lemma apiRequest_elements url method data w :
  elements (apiRequest network url method data w).1 = elements w.
Proof.
  rewrite apiRequest_eq. cbn.
  destruct (try_outcome _); cbn; [reflexivity|].
  unfold reported. now rewrite showToast_elements.
Qed.

Lemma apiRequest_requests url method data w :
  requests (apiRequest network url method data w).1 =
  requests w ++ [(now w, request_options url method data)].
Proof.
  rewrite apiRequest_eq. cbn.
  destruct (try_outcome _); cbn; [reflexivity|].
  unfold reported. now rewrite showToast_requests.
Qed.

(** *** Failures of the request helper *)

Lemma request_failure_outcome o :
  request_failure o -> exists e, try_outcome o = inr e.
Proof.
  intros [e|r e Ht|r text msg Ht Hp|r Hs]; unfold try_outcome.
  - eauto.
  - rewrite Ht. eauto.
  - rewrite Ht, Hp. eauto.
  - destruct (resp_text r) as [text|e]; [|eauto].
    destruct (JSON_parse text) as [result|msg]; [|eauto].
    rewrite Hs. destruct (get_prop result "error") as [err|e]; [|eauto].
    destruct (new_Error _); eauto.
Qed.

(** Whenever the request fails (transport failure, unreadable or
    unparsable body, non-2xx status), the failure [e] of the [try] block is
    what [apiRequest] throws to its caller, after it has logged [e] and
    appended the error toast whose markup holds the message of [e]. *)
Lemma apiRequest_rethrows url method data w :
  request_failure (answer network url method data w) ->
  exists e,
    try_outcome (answer network url method data w) = inr e /\
    (apiRequest network url method data w).2 = inr e /\
    toast_container (apiRequest network url method data w).1 =
      Some (default [] (toast_container w) ++ [error_toast (err_message e) w]) /\
    console (apiRequest network url method data w).1 =
      console w ++ [ConsoleError "API Error:" e].
Proof.
  intros Hfail. rewrite apiRequest_eq. cbn zeta.
  destruct (request_failure_outcome _ Hfail) as [e He].
  exists e. rewrite He. cbn [fst snd]. split; [reflexivity|].
  split; [reflexivity|].
  unfold reported. rewrite showToast_container, showToast_console.
  split; reflexivity.
Qed.

(** C8: the body is parsed before the status is looked at, so a non-2xx
    response whose body is not valid JSON fails with the parse error (the
    SyntaxError of [JSON.parse], which is also the message of the toast),
    whatever the status; neither the [error] field nor the fallback message
    is used. *)
Theorem apiRequest_parse_error_before_status url method data w r text msg :
  answer network url method data w = Responded r ->
  resp_ok r = false ->
  resp_text r = inl text ->
  JSON_parse text = inr msg ->
  (apiRequest network url method data w).2 = inr (SyntaxError msg) /\
  toast_container (apiRequest network url method data w).1 =
    Some (default [] (toast_container w) ++ [error_toast msg w]).
Proof.
  intros Ha _ Ht Hp. rewrite apiRequest_eq. cbn zeta.
  unfold try_outcome. rewrite Ha, Ht, Hp. cbn [fst snd].
  split; [reflexivity|].
  unfold reported. now rewrite showToast_container.
Qed.

(** C2, amended: on a non-2xx response whose body parses to a value
    other than [null], the failure's message is the string conversion of the
    [error] property when that property is truthy and converts (the property
    itself when it is a non-empty string), and the fallback "API request
    failed" when the property is absent or falsy. *)
Theorem apiRequest_status_message url method data w r text result err :
  answer network url method data w = Responded r ->
  resp_ok r = false ->
  resp_text r = inl text ->
  JSON_parse text = inl result ->
  get_prop result "error" = inl err ->
  (forall s, ToBoolean err = true -> ToString err = inl s ->
     (apiRequest network url method data w).2 = inr (mkError "Error" s)) /\
  (forall s, err = VStr s -> s <> "" ->
     (apiRequest network url method data w).2 = inr (mkError "Error" s)) /\
  (ToBoolean err = false ->
     (apiRequest network url method data w).2 =
     inr (mkError "Error" "API request failed")).
Proof.
  intros Ha Hs Ht Hp Hg. rewrite apiRequest_eq. cbn zeta.
  unfold try_outcome. rewrite Ha, Ht, Hp, Hs, Hg.
  assert (forall s, ToBoolean err = true -> ToString err = inl s ->
            new_Error err = inl (mkError "Error" s)) as Hnew.
  { intros s Hb Hstr. unfold new_Error.
    destruct err; try discriminate Hb; rewrite Hstr; reflexivity. }
  split; [|split].
  - intros s Hb Hstr. rewrite Hb, (Hnew s Hb Hstr). reflexivity.
  - intros s -> Hne.
    assert (ToBoolean (VStr s) = true) as Hb.
    { cbn. destruct (String.eqb s "") eqn:E; [|reflexivity].
      apply String.eqb_eq in E. contradiction. }
    rewrite Hb, (Hnew s Hb eq_refl). reflexivity.
  - intros Hb. rewrite Hb. reflexivity.
Qed.

(** *** The body of the request *)

(** C1, amended: the request that [apiRequest] sends is [request_options];
    for a truthy serializable payload its body is the JSON text of the
    payload, which decodes to the payload; for a falsy payload ([null], an
    omitted argument, [false], a zero or NaN number, the empty string) no
    body is set. *)
Theorem apiRequest_body url method P w :
  last (requests (apiRequest network url method P w).1) =
    Some (now w, request_options url method P) /\
  (ToBoolean P = true -> JSON_serializable P ->
   exists s, req_body (request_options url method P) = Some s /\
             JSON_stringify P = Some s /\ JSON_parse s = inl P) /\
  (ToBoolean P = false -> req_body (request_options url method P) = None).
Proof.
  split; [|split].
  - rewrite apiRequest_requests. apply last_snoc.
  - intros Hb (s & Hs & Hp). exists s. unfold request_options.
    destruct P; try discriminate Hb; cbn [ToBoolean] in *;
      subst; rewrite ?Hb; cbn; auto.
  - intros Hb. unfold request_options.
    destruct P; cbn [ToBoolean] in *; rewrite ?Hb; try discriminate Hb;
      reflexivity.
Qed.

(** *** One tick of the poller *)

Lemma updateStats_eq w :
  updateStats network w =
  match apiRequest network "/api/stats" None VUndefined w with
  | (w1, inr e) => (console_error "Failed to update stats:" e w1, inl tt)
  | (w1, inl data) =>
      match stat_elements data with
      | inr e => (console_error "Failed to update stats:" e w1, inl tt)
      | inl entries =>
          match render entries w1 with
          | (w2, inl _) => (w2, inl tt)
          | (w2, inr e) => (console_error "Failed to update stats:" e w2, inl tt)
          end
      end
  end.
Proof.
  unfold updateStats, try_catch, stats_request_then, bind.
  destruct (apiRequest network "/api/stats" None VUndefined w) as [w1 [data|e]];
    [|reflexivity].
  unfold stats_then, bind, lift.
  destruct (stat_elements data) as [entries|e]; [|reflexivity].
  destruct (render entries w1) as [w2 [[]|e]]; reflexivity.
Qed.

(** No failure of a tick reaches whoever called [updateStats]. *)
Lemma updateStats_returns w : (updateStats network w).2 = inl tt.
Proof.
  rewrite updateStats_eq.
  destruct (apiRequest network "/api/stats" None VUndefined w) as [w1 [data|e]];
    [|reflexivity].
  destruct (stat_elements data) as [entries|e]; [|reflexivity].
  destruct (render entries w1) as [w2 [u|e]]; reflexivity.
Qed.

Lemma set_textContent_ok k v text w :
  DOMString_of v = inl text ->
  set_textContent k v w = (write_text k text w, inl tt).
Proof.
  intros Hv. unfold set_textContent, write_text. rewrite Hv.
  now destruct (elements w !! k).
Qed.

Lemma write_text_lookup k text w id :
  elements (write_text k text w) !! id =
  match elements w !! id with
  | None => None
  | Some old => Some (if decide (k = id) then text else old)
  end.
Proof.
  unfold write_text.
  destruct (elements w !! k) as [old_k|] eqn:Ek; cbn.
  - rewrite lookup_insert. destruct (decide (k = id)) as [->|Hne].
    + now rewrite Ek.
    + now destruct (elements w !! id).
  - destruct (decide (k = id)) as [->|Hne].
    + now rewrite Ek.
    + now destruct (elements w !! id).
Qed.

(** Writing changes nothing but the texts of the elements. *)
Lemma render_frame entries w :
  (render entries w).1 = set_elements (elements (render entries w).1) w.
Proof.
  revert w. induction entries as [|[k v] entries IH]; intros w;
    [now destruct w|].
  cbn [render]. unfold bind, set_textContent.
  destruct (elements w !! k); [|apply IH].
  destruct (DOMString_of v) as [text|e]; [|now destruct w].
  rewrite IH. reflexivity.
Qed.

Lemma render_console entries w : console (render entries w).1 = console w.
Proof. now rewrite render_frame. Qed.

Lemma stat_elements_ok data total amount fraud rate text_amount :
  get_prop data "total_transactions" = inl total ->
  get_prop data "total_amount" = inl amount ->
  formatCurrency amount = inl text_amount ->
  get_prop data "fraud_count" = inl fraud ->
  get_prop data "fraud_rate" = inl (VNum rate) ->
  stat_elements data =
  inl [("stat-total", total);
       ("stat-amount", VStr text_amount);
       ("stat-fraud", fraud);
       ("stat-rate", VStr (Number_toFixed 2 rate +:+ "%"))].
Proof.
  intros Ht Ha Hc Hf Hr. unfold stat_elements.
  rewrite Ht, Ha. cbn. rewrite Hc. cbn. now rewrite Hf, Hr.
Qed.

Lemma render_four total amount fraud rate text_total text_fraud w :
  DOMString_of total = inl text_total ->
  DOMString_of fraud = inl text_fraud ->
  (render [("stat-total", total); ("stat-amount", VStr amount);
           ("stat-fraud", fraud); ("stat-rate", VStr rate)] w).2 = inl tt /\
  rendered (mkTexts text_total amount text_fraud rate) w
    (render [("stat-total", total); ("stat-amount", VStr amount);
             ("stat-fraud", fraud); ("stat-rate", VStr rate)] w).1.
Proof.
  intros Htotal Hfraud.
  assert (render [("stat-total", total); ("stat-amount", VStr amount);
                  ("stat-fraud", fraud); ("stat-rate", VStr rate)] w =
          (write_text "stat-rate" rate
             (write_text "stat-fraud" text_fraud
                (write_text "stat-amount" amount
                   (write_text "stat-total" text_total w))), inl tt)) as ->.
  { cbn [render]. unfold bind.
    rewrite (set_textContent_ok _ _ _ _ Htotal).
    rewrite (set_textContent_ok _ (VStr amount) amount _ eq_refl).
    rewrite (set_textContent_ok _ _ _ _ Hfraud).
    rewrite (set_textContent_ok _ (VStr rate) rate _ eq_refl).
    reflexivity. }
  split; [reflexivity|]. cbn [fst].
  assert (forall id,
    elements (write_text "stat-rate" rate
                (write_text "stat-fraud" text_fraud
                   (write_text "stat-amount" amount
                      (write_text "stat-total" text_total w)))) !! id =
    match elements w !! id with
    | None => None
    | Some old =>
        Some (if decide ("stat-rate" = id) then rate
              else if decide ("stat-fraud" = id) then text_fraud
              else if decide ("stat-amount" = id) then amount
              else if decide ("stat-total" = id) then text_total
              else old)
    end) as Hlook.
  { intros id. rewrite !write_text_lookup.
    destruct (elements w !! id); [|reflexivity].
    repeat case_decide; reflexivity. }
  unfold rendered. repeat split.
  - intros id Hn. now rewrite Hlook, Hn.
  - intros [old Ho]. now rewrite Hlook, Ho.
  - intros [old Ho]. now rewrite Hlook, Ho.
  - intros [old Ho]. now rewrite Hlook, Ho.
  - intros [old Ho]. now rewrite Hlook, Ho.
  - intros id Hid. rewrite Hlook.
    destruct (elements w !! id); [|reflexivity].
    unfold stat_sinks in Hid.
    repeat case_decide; subst; try reflexivity; exfalso; apply Hid;
      set_solver.
Qed.

Lemma successful_tick w data total amount fraud rate
      text_total text_amount text_fraud :
  (apiRequest network "/api/stats" None VUndefined w).2 = inl data ->
  get_prop data "total_transactions" = inl total ->
  get_prop data "total_amount" = inl amount ->
  get_prop data "fraud_count" = inl fraud ->
  get_prop data "fraud_rate" = inl (VNum rate) ->
  DOMString_of total = inl text_total ->
  formatCurrency amount = inl text_amount ->
  DOMString_of fraud = inl text_fraud ->
  (updateStats network w).2 = inl tt /\
  console (updateStats network w).1 = console w /\
  rendered (mkTexts text_total text_amount text_fraud
                    (Number_toFixed 2 rate +:+ "%"))
           w (updateStats network w).1.
Proof.
  intros Hd Ht Ha Hf Hr Htt Hta Htf. split; [apply updateStats_returns|].
  rewrite updateStats_eq.
  pose proof (apiRequest_elements "/api/stats" None VUndefined w) as Hel.
  pose proof (apiRequest_eq "/api/stats" None VUndefined w) as Heq.
  destruct (apiRequest network "/api/stats" None VUndefined w) as [w1 c].
  cbn [fst snd] in *. subst c.
  rewrite (stat_elements_ok _ _ _ _ _ _ Ht Ha Hta Hf Hr).
  destruct (render_four total text_amount fraud
              (Number_toFixed 2 rate +:+ "%") text_total text_fraud w1 Htt Htf)
    as [Hok Hr4].
  pose proof (render_console
                [("stat-total", total); ("stat-amount", VStr text_amount);
                 ("stat-fraud", fraud);
                 ("stat-rate", VStr (Number_toFixed 2 rate +:+ "%"))] w1) as Hcon.
  destruct (render _ w1) as [w2 c]. cbn [fst snd] in *. subst c.
  cbn [fst snd]. split.
  - rewrite Hcon. cbn zeta in Heq.
    destruct (try_outcome _); inversion Heq. reflexivity.
  - unfold rendered in *. rewrite Hel in Hr4. exact Hr4.
Qed.

(** C5: whichever of the four sinks are absent from the document, a
    successful tick (the request succeeds, the four values are built and the
    two raw counts convert to text) does not fail and logs nothing; it writes
    the formatted value into each sink that exists, leaves each absent sink
    absent, and changes no other element.  In particular without
    [stat-fraud] the other three sinks are still written. *)
Theorem updateStats_skips_missing_sinks w data total amount fraud rate
      text_total text_amount text_fraud :
  (apiRequest network "/api/stats" None VUndefined w).2 = inl data ->
  get_prop data "total_transactions" = inl total ->
  get_prop data "total_amount" = inl amount ->
  get_prop data "fraud_count" = inl fraud ->
  get_prop data "fraud_rate" = inl (VNum rate) ->
  DOMString_of total = inl text_total ->
  formatCurrency amount = inl text_amount ->
  DOMString_of fraud = inl text_fraud ->
  (updateStats network w).2 = inl tt /\
  console (updateStats network w).1 = console w /\
  rendered (mkTexts text_total text_amount text_fraud
                    (Number_toFixed 2 rate +:+ "%"))
           w (updateStats network w).1.
Proof. apply successful_tick. Qed.

(** C3, amended: a tick that fails before the [forEach], because the
    request fails or because building one of the four values throws, gives
    no element of the document a new text (so none of the four sinks); the
    failure is logged with [console.error], and [updateStats] completes
    normally. *)
Theorem updateStats_failure_before_writing w :
  (exists e, (apiRequest network "/api/stats" None VUndefined w).2 = inr e) \/
  (exists data e,
     (apiRequest network "/api/stats" None VUndefined w).2 = inl data /\
     stat_elements data = inr e) ->
  elements (updateStats network w).1 = elements w /\
  (updateStats network w).2 = inl tt /\
  exists e,
    console (updateStats network w).1 =
    console (apiRequest network "/api/stats" None VUndefined w).1 ++
    [ConsoleError "Failed to update stats:" e].
Proof.
  intros Hfail. rewrite updateStats_eq.
  pose proof (apiRequest_elements "/api/stats" None VUndefined w) as Hel.
  destruct (apiRequest network "/api/stats" None VUndefined w) as [w1 c].
  cbn [fst snd] in *.
  destruct Hfail as [[e ->]|(data & e & -> & Hs)].
  - cbn. eauto.
  - rewrite Hs. cbn. eauto.
Qed.




(** *** Timers *)

Lemma next_timer_split ts t rest :
  next_timer ts = Some (t, rest) ->
  exists l1 l2,
    ts = l1 ++ t :: l2 /\ rest = l1 ++ l2 /\
    Forall (fun u => t_due t < t_due u) l1 /\
    Forall (fun u => t_due t <= t_due u) l2.
Proof.
  revert t rest. induction ts as [|a ts IH]; intros t rest Hn; [discriminate|].
  cbn in Hn. destruct (next_timer ts) as [[t' rest']|] eqn:E.
  - destruct (IH _ _ eq_refl) as (l1 & l2 & -> & -> & H1 & H2).
    destruct (Z.leb_spec (t_due a) (t_due t')); inversion Hn; subst.
    + exists [], (l1 ++ t' :: l2). repeat split; auto.
      apply Forall_app. split.
      * eapply Forall_impl; [exact H1|]. cbn. intros; lia.
      * constructor; [lia|]. eapply Forall_impl; [exact H2|]. cbn. intros; lia.
    + exists (a :: l1), l2. repeat split; auto.
  - inversion Hn; subst. destruct ts; [|cbn in E; destruct (next_timer ts) as [[? ?]|]; [destruct (_ <=? _)|]; discriminate].
    exists [], []. repeat split; auto.
Qed.

Lemma next_timer_none ts : next_timer ts = None -> ts = [].
Proof.
  destruct ts as [|a ts]; [reflexivity|]. cbn.
  destruct (next_timer ts) as [[t' rest']|]; [|discriminate].
  destruct (_ <=? _); discriminate.
Qed.

Lemma next_timer_least ts t rest u :
  next_timer ts = Some (t, rest) -> u ∈ ts -> t_due t <= t_due u.
Proof.
  intros Hn Hu. destruct (next_timer_split _ _ _ Hn) as (l1 & l2 & -> & _ & H1 & H2).
  rewrite Forall_forall in H1, H2.
  apply elem_of_app in Hu as [Hu|Hu]; [specialize (H1 _ Hu); lia|].
  apply elem_of_cons in Hu as [->|Hu]; [lia|]. auto.
Qed.

(** *** What a callback changes *)

(** The page after a tick: the clock stands, the request is on the trace,
    and a failed request has left its toast and the timer of the toast. *)
Lemma updateStats_frame w :
  now (updateStats network w).1 = now w /\
  requests (updateStats network w).1 = requests w ++ [(now w, stats_request)] /\
  ((timers (updateStats network w).1 = timers w /\
    toast_container (updateStats network w).1 = toast_container w /\
    next_node (updateStats network w).1 = next_node w) \/
   (exists msg,
      timers (updateStats network w).1 =
        timers w ++ [mkTimer (now w + 5000) None (ToastFade (next_node w))] /\
      toast_container (updateStats network w).1 =
        Some (default [] (toast_container w) ++ [error_toast msg w]) /\
      next_node (updateStats network w).1 = S (next_node w))).
Proof.
  rewrite updateStats_eq, apiRequest_eq. cbn zeta.
  fold stats_request.
  destruct (try_outcome _) as [data|e].
  - destruct (stat_elements data) as [entries|e]; [|cbn; auto 10].
    pose proof (render_frame entries (record_request stats_request w)) as Hfr.
    destruct (render entries _) as [w2 [u|e]]; cbn [fst snd] in *;
      rewrite Hfr; cbn; auto 10.
  - cbn [fst snd]. unfold reported, showToast, error_toast. cbn.
    destruct (toast_container w); cbn; eauto 10.
Qed.

Lemma toast_ids_remove node w :
  toast_ids (toast_remove node w) = filter (fun m => m ≠ node) (toast_ids w).
Proof.
  unfold toast_ids, toast_remove. cbn.
  destruct (toast_container w) as [children|]; cbn; [|reflexivity].
  induction children as [|c children IH]; [reflexivity|].
  rewrite filter_cons. cbn [map]. rewrite filter_cons.
  destruct (decide (toast_node c ≠ node)); cbn [map]; now rewrite IH.
Qed.

Lemma toast_ids_fade node w : toast_ids (toast_fade node w) = toast_ids w.
Proof.
  unfold toast_ids, toast_fade. cbn.
  destruct (toast_container w) as [children|]; cbn; [|reflexivity].
  induction children as [|c children IH]; [reflexivity|].
  cbn [map]. rewrite IH. now destruct (toast_node c =? node)%nat.
Qed.

(** What firing a timer changes, callback by callback. *)
Lemma fire_spec t rest w :
  now (fire network t rest w) = Z.max (now w) (t_due t) /\
  match t_callback t with
  | UpdateStats =>
      requests (fire network t rest w) =
        requests w ++ [(Z.max (now w) (t_due t), stats_request)] /\
      ((timers (fire network t rest w) = rest ++ rearmed t /\
        toast_ids (fire network t rest w) = toast_ids w /\
        next_node (fire network t rest w) = next_node w) \/
       (timers (fire network t rest w) =
          (rest ++ rearmed t) ++
          [mkTimer (Z.max (now w) (t_due t) + 5000) None (ToastFade (next_node w))] /\
        toast_ids (fire network t rest w) = toast_ids w ++ [next_node w] /\
        next_node (fire network t rest w) = S (next_node w)))
  | ToastFade n =>
      requests (fire network t rest w) = requests w /\
      timers (fire network t rest w) =
        (rest ++ rearmed t) ++
        [mkTimer (Z.max (now w) (t_due t) + 300) None (ToastRemove n)] /\
      toast_ids (fire network t rest w) = toast_ids w /\
      next_node (fire network t rest w) = next_node w
  | ToastRemove n =>
      requests (fire network t rest w) = requests w /\
      timers (fire network t rest w) = rest ++ rearmed t /\
      toast_ids (fire network t rest w) = filter (fun m => m ≠ n) (toast_ids w) /\
      next_node (fire network t rest w) = next_node w
  end.
Proof.
  unfold fire. fold (rearmed t).
  set (w0 := set_timers (rest ++ rearmed t) (set_now (Z.max (now w) (t_due t)) w)).
  destruct (t_callback t) as [|n|n]; cbn [run_callback].
  - destruct (updateStats_frame w0) as (Hn & Hr & Ht).
    split; [exact Hn|]. split; [exact Hr|].
    destruct Ht as [(Ht & Hc & Hx)|(msg & Ht & Hc & Hx)]; [left|right].
    + unfold toast_ids. rewrite Ht, Hc, Hx. auto.
    + unfold toast_ids. rewrite Ht, Hc, Hx. cbn.
      split; [reflexivity|]. split; [|reflexivity].
      now rewrite map_app.
  - rewrite toast_ids_fade. cbn. auto.
  - rewrite toast_ids_remove. cbn. auto.
Qed.

(** *** The event loop terminates *)

Lemma pending_app until l1 l2 :
  pending until (l1 ++ l2) = (pending until l1 + pending until l2)%nat.
Proof. induction l1 as [|a l1 IH]; cbn; [reflexivity|]. rewrite IH. lia. Qed.

Lemma callback_weight_pos cb : (1 <= callback_weight cb)%nat.
Proof. destruct cb; cbn; lia. Qed.

Lemma firings_due until t :
  (forall p, t_every t = Some p -> 0 < p) ->
  t_due t <= until -> (1 <= firings until t)%nat.
Proof.
  intros Hp Hd. unfold firings.
  destruct (Z.leb_spec (t_due t) until); [|lia].
  destruct (t_every t) as [p|]; [|lia].
  specialize (Hp p eq_refl).
  assert (0 <= (until - t_due t) / p) by (apply Z.div_pos; lia). lia.
Qed.

Lemma pending_rearmed until t :
  (forall p, t_every t = Some p -> 0 < p) ->
  t_due t <= until ->
  (pending until (rearmed t) + callback_weight (t_callback t))%nat =
  timer_weight until t.
Proof.
  intros Hp Hd. unfold rearmed, timer_weight, firings.
  destruct (Z.leb_spec (t_due t) until); [|lia].
  destruct (t_every t) as [p|]; cbn; [|lia].
  specialize (Hp p eq_refl).
  unfold timer_weight, firings. cbn.
  assert (0 <= (until - t_due t) / p) as Hq by (apply Z.div_pos; lia).
  destruct (Z.leb_spec (t_due t + p) until) as [Hle|Hgt].
  - replace (until - (t_due t + p)) with ((until - t_due t) + (-1) * p) by lia.
    rewrite Z.div_add by lia.
    assert (1 <= (until - t_due t) / p).
    { apply Z.div_le_lower_bound; lia. }
    replace (Z.to_nat ((until - t_due t) / p + 1))
      with (S (Z.to_nat ((until - t_due t) / p + -1 + 1))) by lia.
    lia.
  - assert ((until - t_due t) / p = 0) as -> by (apply Z.div_small; lia).
    cbn. lia.
Qed.

Lemma timeout_weight until due cb :
  (timer_weight until (mkTimer due None cb) <= callback_weight cb)%nat.
Proof.
  unfold timer_weight, firings. cbn. destruct (due <=? until); lia.
Qed.

Lemma periods_positive_app l1 l2 :
  periods_positive (l1 ++ l2) <-> periods_positive l1 /\ periods_positive l2.
Proof. apply Forall_app. Qed.

Lemma periods_positive_rearmed t :
  (forall p, t_every t = Some p -> 0 < p) -> periods_positive (rearmed t).
Proof.
  intros Hp. unfold rearmed, periods_positive.
  destruct (t_every t) as [p|] eqn:E; constructor; [|constructor].
  cbn. intros q [= <-]. auto.
Qed.

Lemma periods_positive_timeout due cb :
  periods_positive [mkTimer due None cb].
Proof. constructor; [|constructor]. cbn. discriminate. Qed.

(** Firing a due timer uses up some of the pending work. *)
Lemma fire_pending until t rest w :
  periods_positive (timers w) ->
  next_timer (timers w) = Some (t, rest) ->
  t_due t <= until ->
  (pending until (timers (fire network t rest w)) < pending until (timers w))%nat /\
  periods_positive (timers (fire network t rest w)).
Proof.
  intros Hpos Hn Hd.
  destruct (next_timer_split _ _ _ Hn) as (l1 & l2 & Hts & -> & _ & _).
  rewrite Hts in *.
  apply periods_positive_app in Hpos as [Hp1 Hp2].
  inversion Hp2 as [|? ? Hpt Hp2']; subst.
  assert (periods_positive (l1 ++ l2)) as Hrest
    by (apply periods_positive_app; auto).
  pose proof (pending_rearmed until t Hpt Hd) as Hre.
  pose proof (periods_positive_rearmed t Hpt) as Hpr.
  assert (pending until (l1 ++ t :: l2) =
          (pending until (l1 ++ l2) + timer_weight until t)%nat) as ->.
  { rewrite !pending_app. cbn. lia. }
  destruct (fire_spec t (l1 ++ l2) w) as [_ Hspec].
  destruct (t_callback t) as [|n|n] eqn:Ecb.
  - destruct Hspec as [_ [(-> & _)|(-> & _)]].
    + split; [|apply periods_positive_app; auto].
      rewrite pending_app. cbn in Hre. lia.
    + split.
      * rewrite !pending_app. cbn [pending].
        pose proof (timeout_weight until (Z.max (now w) (t_due t) + 5000)
                      (ToastFade (next_node w))) as Hw.
        cbn in Hw, Hre. lia.
      * apply periods_positive_app. split; [apply periods_positive_app; auto|].
        apply periods_positive_timeout.
  - destruct Hspec as (_ & -> & _). split.
    + rewrite !pending_app. cbn [pending].
      pose proof (timeout_weight until (Z.max (now w) (t_due t) + 300)
                    (ToastRemove n)) as Hw.
      cbn in Hw, Hre. lia.
    + apply periods_positive_app. split; [apply periods_positive_app; auto|].
      apply periods_positive_timeout.
  - destruct Hspec as (_ & -> & _). split.
    + rewrite pending_app. cbn in Hre. lia.
    + apply periods_positive_app; auto.
Qed.

(** With the pending work as fuel the clock reaches any time. *)
Lemma advance_total fuel until w :
  periods_positive (timers w) ->
  (pending until (timers w) <= fuel)%nat ->
  exists w', advance network fuel until w = Some w'.
Proof.
  revert w. induction fuel as [|fuel IH]; intros w Hpos Hfuel.
  - cbn. destruct (next_timer (timers w)) as [[t rest]|] eqn:Hn; [|eauto].
    destruct (Z.leb_spec (t_due t) until) as [Hd|Hd]; [|eauto].
    destruct (fire_pending until t rest w Hpos Hn Hd) as [Hlt _]. lia.
  - cbn. destruct (next_timer (timers w)) as [[t rest]|] eqn:Hn; [|eauto].
    destruct (Z.leb_spec (t_due t) until) as [Hd|Hd]; [|eauto].
    destruct (fire_pending until t rest w Hpos Hn Hd) as [Hlt Hpos'].
    apply IH; [exact Hpos'|lia].
Qed.

(** A property kept by every firing holds when the clock stops, and no
    timer that was due is left. *)
Lemma advance_invariant (Inv : world -> Prop) until :
  (forall w t rest,
     Inv w -> next_timer (timers w) = Some (t, rest) -> t_due t <= until ->
     Inv (fire network t rest w)) ->
  forall fuel w w',
    Inv w -> advance network fuel until w = Some w' ->
    exists w0,
      Inv w0 /\ w' = set_now (Z.max (now w0) until) w0 /\
      Forall (fun t => until < t_due t) (timers w0).
Proof.
  intros Hstep fuel. induction fuel as [|fuel IH]; intros w w' Hinv Hadv.
  - cbn in Hadv. destruct (next_timer (timers w)) as [[t rest]|] eqn:Hn.
    + destruct (Z.leb_spec (t_due t) until) as [Hd|Hd]; [discriminate|].
      inversion Hadv; subst. exists w. repeat split; auto.
      apply Forall_forall. intros u Hu.
      pose proof (next_timer_least _ _ _ u Hn Hu). lia.
    + inversion Hadv; subst. exists w. repeat split; auto.
      rewrite (next_timer_none _ Hn). constructor.
  - cbn in Hadv. destruct (next_timer (timers w)) as [[t rest]|] eqn:Hn.
    + destruct (Z.leb_spec (t_due t) until) as [Hd|Hd].
      * eapply IH; [|exact Hadv]. eapply Hstep; eauto.
      * inversion Hadv; subst. exists w. repeat split; auto.
        apply Forall_forall. intros u Hu.
        pose proof (next_timer_least _ _ _ u Hn Hu). lia.
    + inversion Hadv; subst. exists w. repeat split; auto.
      rewrite (next_timer_none _ Hn). constructor.
Qed.

(** *** The guard of the poller *)

Lemma prefix_spec sub s :
  String.prefix sub s = true <-> exists post, s = sub +:+ post.
Proof.
  revert s. induction sub as [|a sub IH]; intros s; cbn.
  - split; [intros _; now exists s|now destruct s].
  - destruct s as [|b s].
    + split; [discriminate|]. intros [post Hp]. discriminate.
    + cbn. destruct (Ascii.ascii_dec a b) as [->|Hne].
      * rewrite IH. split; intros [post Hp]; exists post.
        -- now rewrite Hp.
        -- now inversion Hp.
      * split; [discriminate|]. intros [post Hp]. inversion Hp. congruence.
Qed.

Lemma includes_spec s sub : includes s sub = true <-> contains s sub.
Proof.
  unfold contains. split.
  - induction s as [|c s IH]; cbn [includes]; intros Hi.
    + apply orb_true_iff in Hi as [Hi|Hi]; [|discriminate].
      apply prefix_spec in Hi as [post Hp]. now exists "", post.
    + apply orb_true_iff in Hi as [Hi|Hi].
      * apply prefix_spec in Hi as [post Hp]. now exists "", post.
      * destruct (IH Hi) as (pre & post & ->). now exists (String c pre), post.
  - intros (pre & post & ->). induction pre as [|c pre IH].
    + change ("" +:+ sub +:+ post) with (sub +:+ post).
      assert (String.prefix sub (sub +:+ post) = true) as Hp
        by (apply prefix_spec; eauto).
      destruct (sub +:+ post); cbn [includes]; now rewrite Hp.
    + change (String c pre +:+ sub +:+ post)
        with (String c (pre +:+ sub +:+ post)).
      cbn [includes]. rewrite IH. apply orb_true_r.
Qed.

Lemma is_poll_rearmed t :
  is_poll t = false -> Forall (fun u => is_poll u = false) (rearmed t).
Proof.
  intros Hp. unfold rearmed. destruct (t_every t); repeat constructor.
  exact Hp.
Qed.

(** While no poll is scheduled, firing timers sends nothing. *)
Lemma fire_idle t rest w :
  Forall (fun u => is_poll u = false) (timers w) ->
  next_timer (timers w) = Some (t, rest) ->
  Forall (fun u => is_poll u = false) (timers (fire network t rest w)) /\
  requests (fire network t rest w) = requests w.
Proof.
  intros Hidle Hn.
  destruct (next_timer_split _ _ _ Hn) as (l1 & l2 & Hts & -> & _ & _).
  rewrite Hts in Hidle. apply Forall_app in Hidle as [H1 H2].
  inversion H2 as [|? ? Ht H2']; subst.
  assert (Forall (fun u => is_poll u = false) ((l1 ++ l2) ++ rearmed t)) as Hrest.
  { apply Forall_app. split; [apply Forall_app; auto|].
    now apply is_poll_rearmed. }
  destruct (fire_spec t (l1 ++ l2) w) as [_ Hspec].
  unfold is_poll in Ht.
  destruct (t_callback t) as [|n|n]; [discriminate| |].
  - destruct Hspec as (-> & -> & _). split; [|reflexivity].
    apply Forall_app. split; [exact Hrest|]. repeat constructor.
  - destruct Hspec as (-> & -> & _). split; [|reflexivity]. exact Hrest.
Qed.

(** C6: on a page where no poll was scheduled before, the last
    statement of the module schedules the recurring poll (every 30000 ms) if
    and only if the path contains "dashboard"; on any other path the clock
    can run to any time and no request is ever sent. *)
Theorem poller_only_on_dashboard path w :
  Forall (fun u => is_poll u = false) (timers w) ->
  periods_positive (timers w) ->
  (polling (start_poller path w) <-> contains path "dashboard") /\
  (contains path "dashboard" ->
   timers (start_poller path w) =
   timers w ++ [mkTimer (now w + 30000) (Some 30000) UpdateStats]) /\
  (~ contains path "dashboard" ->
   forall until,
     (exists fuel w', advance network fuel until (start_poller path w) = Some w') /\
     (forall fuel w',
        advance network fuel until (start_poller path w) = Some w' ->
        requests w' = requests w)).
Proof.
  intros Hidle Hpos. unfold start_poller.
  destruct (includes path "dashboard") eqn:Hinc.
  - apply includes_spec in Hinc. split; [|split].
    + split; [auto|]. intros _.
      exists (mkTimer (now w + 30000) (Some 30000) UpdateStats).
      split; [|reflexivity]. cbn. apply elem_of_app. right. constructor.
    + reflexivity.
    + contradiction.
  - assert (~ contains path "dashboard") as Hnot.
    { intros Hc. apply includes_spec in Hc. congruence. }
    split; [|split].
    + split; [|contradiction]. intros (t & Ht & Hp).
      rewrite Forall_forall in Hidle. specialize (Hidle _ Ht). congruence.
    + contradiction.
    + intros _ until. split.
      * exists (pending until (timers w)). now apply advance_total.
      * intros fuel w' Hadv.
        destruct (advance_invariant
                    (fun w0 => Forall (fun u => is_poll u = false) (timers w0) /\
                               requests w0 = requests w) until) with
          (fuel := fuel) (w := w) (w' := w') as (w0 & [_ Hreq] & -> & _);
          auto.
        intros w1 t rest [Hi Hr] Hn _.
        destruct (fire_idle t rest w1 Hi Hn) as [Hi' Hr'].
        split; [exact Hi'|congruence].
Qed.

(** *** The schedule of the poller *)

Lemma ticks_succ first count :
  ticks first (S count) =
  ticks first count ++ [(first + 30000 * Z.of_nat count, stats_request)].
Proof. unfold ticks. rewrite seq_S, map_app. reflexivity. Qed.

Lemma firings_unique until due (k : nat) :
  (k = O \/ due + 30000 * (Z.of_nat k - 1) <= until) ->
  until < due + 30000 * Z.of_nat k ->
  firings until (poll_timer due) = k.
Proof.
  intros Hlow Hhigh. unfold firings. cbn.
  destruct (Z.leb_spec due until) as [Hd|Hd].
  - destruct Hlow as [->|Hlow]; [lia|].
    assert ((until - due) / 30000 = Z.of_nat k - 1) as ->; [|lia].
    symmetry. apply Z.div_unique with (r := until - due - 30000 * (Z.of_nat k - 1)); lia.
  - destruct Hlow as [->|Hlow]; [reflexivity|]. lia.
Qed.

Lemma filter_one_split (P : timer -> bool) (l1 l2 : list timer) t x :
  filter (fun u => P u = true) (l1 ++ t :: l2) = [x] ->
  (P t = true /\ t = x /\ filter (fun u => P u = true) (l1 ++ l2) = []) \/
  (P t = false /\ filter (fun u => P u = true) (l1 ++ l2) = [x]).
Proof.
  rewrite !filter_app, filter_cons. intros Hf.
  destruct (decide (P t = true)) as [Ht|Ht].
  - left. destruct (filter _ l1) as [|a l1'].
    + cbn in Hf. injection Hf as -> Hnil. rewrite Hnil. auto.
    + injection Hf as _ Hnil. destruct l1'; discriminate.
  - right. split; [now destruct (P t)|exact Hf].
Qed.

Lemma poll_filter_rearmed t :
  filter (fun u => is_poll u = true) (rearmed t) =
  if is_poll t then rearmed t else [].
Proof.
  unfold rearmed, is_poll.
  destruct (t_every t) as [p|]; [|now destruct (t_callback t)].
  destruct (t_callback t); reflexivity.
Qed.

Lemma fire_on_schedule w due until w0 t rest :
  on_schedule w due until w0 ->
  next_timer (timers w0) = Some (t, rest) ->
  t_due t <= until ->
  on_schedule w due until (fire network t rest w0).
Proof.
  intros (k & [Hpoll Hnow] & Hreq & Hlow) Hn Hd.
  destruct (next_timer_split _ _ _ Hn) as (l1 & l2 & Hts & -> & _ & _).
  assert (t_due t <= due + 30000 * Z.of_nat k) as Hmin.
  { apply (next_timer_least _ _ _ (poll_timer (due + 30000 * Z.of_nat k)) Hn).
    assert (poll_timer (due + 30000 * Z.of_nat k) ∈ poll_timers w0) as Hin
      by (rewrite Hpoll; constructor).
    unfold poll_timers in Hin. apply list_elem_of_filter in Hin. tauto. }
  unfold poll_timers in Hpoll. rewrite Hts in Hpoll.
  destruct (fire_spec t (l1 ++ l2) w0) as [Hnow' Hspec].
  destruct (filter_one_split is_poll _ _ _ _ Hpoll)
    as [(Hp & -> & Hrest)|(Hp & Hrest)];
    rewrite filter_app in Hrest.
  - (* the poll itself fires: tick k *)
    cbn [t_callback poll_timer] in Hspec. cbn [t_due poll_timer] in *.
    destruct Hspec as [Hreq' Htimers].
    replace (Z.max (now w0) (due + 30000 * Z.of_nat k))
      with (due + 30000 * Z.of_nat k) in * by lia.
    exists (S k). split; [split|split].
    + unfold poll_timers.
      destruct Htimers as [(-> & _)|(-> & _)];
        rewrite !filter_app, Hrest, poll_filter_rearmed; cbn;
        unfold poll_timer;
        replace (due + 30000 * Z.of_nat (S k))
          with (due + 30000 * Z.of_nat k + 30000) by lia;
        [reflexivity|].
      case_decide; [discriminate|reflexivity].
    + rewrite Hnow'. lia.
    + rewrite Hreq', Hreq, ticks_succ. now rewrite app_assoc.
    + right. lia.
  - (* a timer of a toast fires *)
    exists k. unfold is_poll in Hp. split; [split|split].
    + unfold poll_timers.
      destruct (t_callback t) as [|n|n] eqn:Ecb; [discriminate| |];
        destruct Hspec as (_ & -> & _);
        rewrite !filter_app, Hrest, poll_filter_rearmed;
        unfold is_poll; rewrite Ecb; reflexivity.
    + rewrite Hnow'. lia.
    + destruct (t_callback t) as [|n|n]; [discriminate| |];
        destruct Hspec as (-> & _); exact Hreq.
    + exact Hlow.
Qed.

(** C7: once the poll is armed, the requests sent while the clock runs
    to any time [until] are exactly one per period: tick [i] at
    [due + 30000 * i] for every such time up to [until], whatever the network
    answered to the earlier ticks; afterwards the poll is armed for the next
    period.  No tick throws to the timer that called it. *)
Theorem failed_tick_keeps_schedule w due until :
  armed due w ->
  periods_positive (timers w) ->
  (forall w0, (updateStats network w0).2 = inl tt) /\
  (exists fuel w', advance network fuel until w = Some w') /\
  (forall fuel w',
     advance network fuel until w = Some w' ->
     requests w' = requests w ++ ticks due (firings until (poll_timer due)) /\
     poll_timers w' =
       [poll_timer (due + 30000 * Z.of_nat (firings until (poll_timer due)))]).
Proof.
  intros Harmed Hpos. split; [apply updateStats_returns|]. split.
  - exists (pending until (timers w)). now apply advance_total.
  - intros fuel w' Hadv.
    destruct (advance_invariant (on_schedule w due until) until
                (fire_on_schedule w due until)) with
      (fuel := fuel) (w := w) (w' := w')
      as (w0 & (k & [Hpoll Hnow] & Hreq & Hlow) & -> & Hleft); auto.
    { exists O. unfold ticks. cbn. rewrite Z.add_0_r, app_nil_r. auto. }
    assert (until < due + 30000 * Z.of_nat k) as Hhigh.
    { rewrite Forall_forall in Hleft.
      assert (poll_timer (due + 30000 * Z.of_nat k) ∈ poll_timers w0) as Hin
        by (rewrite Hpoll; constructor).
      unfold poll_timers in Hin. apply list_elem_of_filter in Hin as [_ Hin].
      apply (Hleft _ Hin). }
    rewrite (firings_unique until due k Hlow Hhigh).
    split; [exact Hreq|exact Hpoll].
Qed.

(** *** The life of a toast *)

Lemma mentions_rearmed node t :
  filter (fun u => mentions node u = true) (rearmed t) =
  if mentions node t then rearmed t else [].
Proof.
  unfold rearmed, mentions.
  destruct (t_every t) as [p|]; [|now destruct (t_callback t) as [|n|n]; try destruct (n =? node)%nat].
  destruct (t_callback t) as [|n|n]; cbn [t_callback]; try reflexivity;
    rewrite filter_cons; cbn [t_callback];
    destruct (n =? node)%nat; reflexivity.
Qed.

(** Firing a timer of another toast, or a tick, leaves the toast [node]
    and its timers alone. *)
Lemma fire_other node t rest w :
  mentions node t = false ->
  (node < next_node w)%nat ->
  (node ∈ toast_ids (fire network t rest w) <-> node ∈ toast_ids w) /\
  (node < next_node (fire network t rest w))%nat /\
  filter (fun u => mentions node u = true) (timers (fire network t rest w)) =
  filter (fun u => mentions node u = true) rest.
Proof.
  intros Hm Hlt. destruct (fire_spec t rest w) as [_ Hspec].
  pose proof (mentions_rearmed node t) as Hre. rewrite Hm in Hre.
  unfold mentions in Hm.
  destruct (t_callback t) as [|n|n].
  - destruct Hspec as [_ [(-> & -> & ->)|(-> & -> & ->)]].
    + rewrite filter_app, Hre, app_nil_r. auto.
    + rewrite !filter_app, Hre, !app_nil_r. split; [|split; [lia|]].
      * rewrite elem_of_app, list_elem_of_singleton. split; [|auto].
        intros [Hin|Heq]; [exact Hin|lia].
      * rewrite filter_cons. cbn.
        destruct (Nat.eqb_spec (next_node w) node); [lia|].
        case_decide; [discriminate|]. now rewrite app_nil_r.
  - destruct Hspec as (_ & -> & -> & ->).
    rewrite !filter_app, Hre, app_nil_r. split; [reflexivity|]. split; [lia|].
    rewrite filter_cons. cbn. rewrite Hm.
    case_decide; [discriminate|]. now rewrite app_nil_r.
  - destruct Hspec as (_ & -> & -> & ->).
    rewrite filter_app, Hre, app_nil_r. split; [|auto].
    rewrite list_elem_of_filter. apply Nat.eqb_neq in Hm.
    split; [tauto|]. intros Hin. split; [congruence|exact Hin].
Qed.

(** A removed toast does not come back. *)
Lemma fire_absent node t rest w :
  (node < next_node w)%nat ->
  node ∉ toast_ids w ->
  (node < next_node (fire network t rest w))%nat /\
  node ∉ toast_ids (fire network t rest w).
Proof.
  intros Hlt Hout. destruct (fire_spec t rest w) as [_ Hspec].
  destruct (t_callback t) as [|n|n].
  - destruct Hspec as [_ [(_ & -> & ->)|(_ & -> & ->)]]; [auto|].
    split; [lia|]. rewrite elem_of_app, list_elem_of_singleton.
    intros [Hin|Heq]; [auto|lia].
  - destruct Hspec as (_ & _ & -> & ->). auto.
  - destruct Hspec as (_ & _ & -> & ->). split; [exact Hlt|].
    rewrite list_elem_of_filter. tauto.
Qed.

Lemma fire_toast_life node created until w t rest :
  toast_life node created until w ->
  next_timer (timers w) = Some (t, rest) ->
  t_due t <= until ->
  toast_life node created until (fire network t rest w).
Proof.
  intros [Hlt Hphase] Hn Hd.
  destruct (next_timer_split _ _ _ Hn) as (l1 & l2 & Hts & -> & _ & _).
  destruct (fire_spec t (l1 ++ l2) w) as [Hnow' Hspec].
  destruct Hphase as [(Hin & Hnt & Hnow)|[(Hin & Hnt & Hnow)|(Hout & Hlate)]].
  - (* shown, waiting to fade *)
    assert (t_due t <= created + 5000) as Hmin.
    { apply (next_timer_least _ _ _
               (mkTimer (created + 5000) None (ToastFade node)) Hn).
      assert (mkTimer (created + 5000) None (ToastFade node) ∈ node_timers node w)
        as Hi by (rewrite Hnt; constructor).
      unfold node_timers in Hi. apply list_elem_of_filter in Hi. tauto. }
    unfold node_timers in Hnt. rewrite Hts in Hnt.
    destruct (filter_one_split (mentions node) _ _ _ _ Hnt)
      as [(Hm & -> & Hrest)|(Hm & Hrest)].
    + cbn [t_callback t_due] in *. destruct Hspec as (_ & Ht & Hids & Hnn).
      split; [lia|]. right. left. split; [now rewrite Hids|]. split.
      * unfold node_timers. rewrite Ht. cbn [rearmed t_every].
        rewrite app_nil_r, filter_app, Hrest, filter_cons. cbn.
        rewrite Nat.eqb_refl. case_decide; [|congruence].
        replace (Z.max (now w) (created + 5000) + 300)
          with (created + 5300) by lia.
        reflexivity.
      * rewrite Hnow'. cbn. lia.
    + destruct (fire_other node t (l1 ++ l2) w Hm Hlt) as (Hids & Hnn & Hf).
      split; [exact Hnn|]. left. split; [now apply Hids|]. split.
      * unfold node_timers. now rewrite Hf.
      * rewrite Hnow'. lia.
  - (* shown, waiting to be removed *)
    assert (t_due t <= created + 5300) as Hmin.
    { apply (next_timer_least _ _ _
               (mkTimer (created + 5300) None (ToastRemove node)) Hn).
      assert (mkTimer (created + 5300) None (ToastRemove node) ∈ node_timers node w)
        as Hi by (rewrite Hnt; constructor).
      unfold node_timers in Hi. apply list_elem_of_filter in Hi. tauto. }
    unfold node_timers in Hnt. rewrite Hts in Hnt.
    destruct (filter_one_split (mentions node) _ _ _ _ Hnt)
      as [(Hm & -> & Hrest)|(Hm & Hrest)].
    + cbn [t_callback t_due] in *. destruct Hspec as (_ & Ht & Hids & Hnn).
      split; [lia|]. right. right. split; [|lia].
      rewrite Hids, list_elem_of_filter. tauto.
    + destruct (fire_other node t (l1 ++ l2) w Hm Hlt) as (Hids & Hnn & Hf).
      split; [exact Hnn|]. right. left. split; [now apply Hids|]. split.
      * unfold node_timers. now rewrite Hf.
      * rewrite Hnow'. lia.
  - (* removed *)
    destruct (fire_absent node t (l1 ++ l2) w Hlt Hout) as [Hnn Hout'].
    split; [exact Hnn|]. right. right. auto.
Qed.

Lemma showToast_toast_ids message type w :
  toast_ids (showToast message type w) = toast_ids w ++ [next_node w].
Proof.
  unfold toast_ids. rewrite showToast_container.
  change (default [] (Some ?l)) with l. now rewrite map_app.
Qed.

Lemma showToast_toast_life message type w until :
  node_unused w ->
  toast_life (next_node w) (now w) until (showToast message type w).
Proof.
  intros Hun. split; [rewrite showToast_next_node; lia|]. left.
  split; [|split].
  - rewrite showToast_toast_ids. apply elem_of_app. right. constructor.
  - unfold node_timers. rewrite showToast_timers, filter_app.
    unfold node_unused, node_timers in Hun. rewrite Hun, filter_cons. cbn.
    rewrite Nat.eqb_refl. case_decide; [reflexivity|congruence].
  - rewrite showToast_now. lia.
Qed.

(** C10: a toast made by [showToast], whatever its message and type, is
    in the document until 5300 ms after its creation (5000 ms shown, 300 ms
    fading) and is no longer in it from then on, by the timers alone. *)
Theorem toast_removed_after_delay message type w until :
  node_unused w ->
  periods_positive (timers w) ->
  next_node w ∈ toast_ids (showToast message type w) /\
  (exists fuel w',
     advance network fuel until (showToast message type w) = Some w') /\
  (forall fuel w',
     advance network fuel until (showToast message type w) = Some w' ->
     (now w + 5300 <= until -> next_node w ∉ toast_ids w') /\
     (until < now w + 5300 -> next_node w ∈ toast_ids w')).
Proof.
  intros Hun Hpos.
  pose proof (showToast_toast_life message type w until Hun) as Hlife.
  split; [|split].
  - rewrite showToast_toast_ids. apply elem_of_app. right. constructor.
  - exists (pending until (timers (showToast message type w))).
    apply advance_total; [|lia].
    rewrite showToast_timers. apply periods_positive_app.
    split; [exact Hpos|apply periods_positive_timeout].
  - intros fuel w' Hadv.
    destruct (advance_invariant (toast_life (next_node w) (now w) until) until)
      with (fuel := fuel) (w := showToast message type w) (w' := w')
      as (w0 & [_ Hphase] & -> & Hleft); auto.
    { intros w1 t rest. apply fire_toast_life. }
    rewrite Forall_forall in Hleft.
    change (toast_ids (set_now (Z.max (now w0) until) w0)) with (toast_ids w0).
    destruct Hphase as [(Hin & Hnt & _)|[(Hin & Hnt & _)|(Hout & Hlate)]].
    + assert (mkTimer (now w + 5000) None (ToastFade (next_node w))
                ∈ node_timers (next_node w) w0) as Hi
        by (rewrite Hnt; constructor).
      unfold node_timers in Hi. apply list_elem_of_filter in Hi as [_ Hi].
      specialize (Hleft _ Hi). cbn in Hleft. split; [lia|auto].
    + assert (mkTimer (now w + 5300) None (ToastRemove (next_node w))
                ∈ node_timers (next_node w) w0) as Hi
        by (rewrite Hnt; constructor).
      unfold node_timers in Hi. apply list_elem_of_filter in Hi as [_ Hi].
      specialize (Hleft _ Hi). cbn in Hleft. split; [lia|auto].
    + split; [auto|lia].
Qed.

(** *** Pages built by the script *)

Lemma nodes_below_mono b b' ts :
  nodes_below b ts -> (b <= b')%nat -> nodes_below b' ts.
Proof.
  intros Hk Hle. eapply Forall_impl; [exact Hk|].
  cbn. intros t Ht n Hm. specialize (Ht n Hm). lia.
Qed.

Lemma nodes_below_rearmed b t :
  (forall n, mentions n t = true -> (n < b)%nat) -> nodes_below b (rearmed t).
Proof.
  intros Ht. unfold rearmed.
  destruct (t_every t); constructor; [exact Ht|constructor].
Qed.

Lemma well_formed_no_timers w : timers w = [] -> well_formed w.
Proof.
  intros Ht. unfold well_formed, nodes_known, nodes_below, periods_positive.
  rewrite Ht. split; constructor.
Qed.

Lemma well_formed_node_unused w : well_formed w -> node_unused w.
Proof.
  intros [_ Hk]. unfold node_unused, node_timers, nodes_known, nodes_below in *.
  induction (timers w) as [|t ts IH]; [reflexivity|].
  inversion Hk as [|? ? Ht Hts]; subst. rewrite filter_cons.
  destruct (decide (mentions (next_node w) t = true)) as [Hm|Hm].
  - specialize (Ht _ Hm). lia.
  - auto.
Qed.

Lemma showToast_well_formed message type w :
  well_formed w -> well_formed (showToast message type w).
Proof.
  intros [Hp Hk]. unfold well_formed, nodes_known.
  rewrite showToast_timers, showToast_next_node. split.
  - apply periods_positive_app. split; [exact Hp|apply periods_positive_timeout].
  - apply Forall_app. split.
    + apply (nodes_below_mono (next_node w)); [exact Hk|lia].
    + constructor; [|constructor]. unfold mentions. cbn. intros m Hm.
      apply Nat.eqb_eq in Hm. lia.
Qed.

Lemma start_poller_well_formed path w :
  well_formed w -> well_formed (start_poller path w).
Proof.
  intros [Hp Hk]. unfold start_poller.
  destruct (includes path "dashboard"); [|split; assumption].
  split.
  - apply periods_positive_app. split; [exact Hp|].
    constructor; [|constructor]. cbn. intros p [= <-]. lia.
  - apply Forall_app. split; [exact Hk|].
    constructor; [|constructor]. unfold mentions. cbn. discriminate.
Qed.

Lemma fire_well_formed t rest w :
  well_formed w ->
  next_timer (timers w) = Some (t, rest) ->
  well_formed (fire network t rest w).
Proof.
  intros [Hp Hk] Hn. split.
  - apply (fire_pending (t_due t) t rest w Hp Hn). lia.
  - destruct (next_timer_split _ _ _ Hn) as (l1 & l2 & Hts & -> & _ & _).
    unfold nodes_known, nodes_below in *. rewrite Hts in Hk.
    apply Forall_app in Hk as [Hk1 Hk2].
    inversion Hk2 as [|? ? Hkt Hk2']; subst.
    assert (nodes_below (next_node w) ((l1 ++ l2) ++ rearmed t)) as Hrest.
    { apply Forall_app. split; [apply Forall_app; auto|].
      now apply nodes_below_rearmed. }
    destruct (fire_spec t (l1 ++ l2) w) as [_ Hspec].
    destruct (t_callback t) as [|n|n] eqn:Ecb.
    + destruct Hspec as [_ [(-> & _ & ->)|(-> & _ & ->)]]; [exact Hrest|].
      apply Forall_app. split.
      * apply (nodes_below_mono (next_node w)); [exact Hrest|lia].
      * constructor; [|constructor]. unfold mentions. cbn. intros m Hm.
        apply Nat.eqb_eq in Hm. lia.
    + destruct Hspec as (_ & -> & _ & ->).
      apply Forall_app. split; [exact Hrest|].
      constructor; [|constructor]. unfold mentions. cbn. intros m Hm.
      apply Hkt. unfold mentions. now rewrite Ecb.
    + destruct Hspec as (_ & -> & _ & ->). exact Hrest.
Qed.

(** On a dashboard path the poll is armed one period after the start. *)
Lemma start_poller_armed path w :
  contains path "dashboard" ->
  poll_timers w = [] ->
  armed (now w + 30000) (start_poller path w).
Proof.
  intros Hc Hnone. apply includes_spec in Hc. unfold start_poller.
  rewrite Hc. split; [|cbn; lia].
  unfold poll_timers in *. cbn. rewrite filter_app, Hnone. reflexivity.
Qed.

End ScriptFacts.

(** ** The script on the integer host *)
Module Examples.

Import IntegerHost Scenario.

Example updateStats_on_page :
  elements (updateStats (H := host) net_ok page).1 =
  <["stat-total" := "120"]> (<["stat-amount" := "$1,234.00"]>
    (<["stat-rate" := "2.00%"]> ∅)).
Proof. vm_compute. reflexivity. Qed.

(** The response is a snapshot whose [fraud_count] is an object with an
    own [toString] entry, and the page has all four sinks.  Giving that
    count a text throws, so the tick fails (it is logged and not thrown
    further), but only in the [forEach], after [stat-total] and
    [stat-amount] got their new texts. *)
Example write_failure_trace :
  DOMString_of (H := host) (VObj [("toString", VNum (Some 0))]) =
    inr (TypeError "Cannot convert object to primitive value") /\
  (stats_request_then (H := host) (net_fields odd_count) full_page).2 =
    inr (TypeError "Cannot convert object to primitive value") /\
  (updateStats (H := host) (net_fields odd_count) full_page).2 = inl tt /\
  console (updateStats (H := host) (net_fields odd_count) full_page).1 =
    [ConsoleError "Failed to update stats:"
       (TypeError "Cannot convert object to primitive value")] /\
  elements full_page =
    <["stat-total" := "0"]> (<["stat-amount" := "$0.00"]>
      (<["stat-fraud" := "0"]> (<["stat-rate" := "0.00%"]> ∅))) /\
  elements (updateStats (H := host) (net_fields odd_count) full_page).1 =
    <["stat-total" := "120"]> (<["stat-amount" := "$1,234.00"]>
      (<["stat-fraud" := "0"]> (<["stat-rate" := "0.00%"]> ∅))) /\
  elements (updateStats (H := host) (net_fields odd_count) full_page).1 <>
    elements full_page.
Proof.
  repeat split; try (vm_compute; reflexivity).
  intros Hsame. apply (f_equal (fun d => d !! "stat-total")) in Hsame.
  vm_compute in Hsame. discriminate.
Qed.

(** Counterexample to C3 as worded: the tick of [write_failure_trace]
    fails, and [stat-total] has a new text. *)
Lemma failed_tick_partial_update :
  ~ failed_tick_writes_nothing (H := host) (net_fields odd_count) full_page.
Proof.
  intros Hclaim.
  specialize (Hclaim (TypeError "Cannot convert object to primitive value")).
  assert ((stats_request_then (H := host) (net_fields odd_count) full_page).2 =
          inr (TypeError "Cannot convert object to primitive value")) as Hfails
    by (vm_compute; reflexivity).
  specialize (Hclaim Hfails "stat-total").
  assert ("stat-total" ∈ stat_sinks) as Hsink by (unfold stat_sinks; set_solver).
  specialize (Hclaim Hsink). vm_compute in Hclaim. discriminate.
Qed.

Example payload_text :
  JSON_parse (Host := host) (json_text payload) = inl payload.
Proof. vm_compute. reflexivity. Qed.

(** Counterexample to C1 as worded: the payload [false] is serializable,
    yet the POST carries no body. *)
Lemma falsy_payload_sent_without_body :
  ~ body_decodes_to_payload (H := host) "/api/flag" (VBool false).
Proof.
  intros Hclaim. destruct Hclaim as (s & Hbody & _).
  - exists "false". split; reflexivity.
  - cbn in Hbody. discriminate.
Qed.

(** Counterexample to C2 as worded: the body of the 400 response has an
    [error] field, the empty string, and the message is the fallback. *)
Lemma empty_error_field_gives_fallback :
  ~ message_is_error_field (H := host) net_empty_error
      "/api/stats" None VUndefined page.
Proof.
  intros Hclaim.
  specialize (Hclaim (mkResponse 400 (inl (json_text (VObj [("error", VStr "")]))))
                     (json_text (VObj [("error", VStr "")]))
                     (VObj [("error", VStr "")])
                     (mkError "Error" "API request failed")).
  assert (JSON_parse (Host := host) (json_text (VObj [("error", VStr "")])) =
          inl (VObj [("error", VStr "")])) as Hparse
    by (vm_compute; reflexivity).
  assert ((apiRequest (H := host) net_empty_error "/api/stats" None VUndefined
             page).2 = inr (mkError "Error" "API request failed")) as Hthrown
    by (vm_compute; reflexivity).
  specialize (Hclaim eq_refl eq_refl eq_refl Hparse Hthrown).
  cbn in Hclaim. discriminate.
Qed.

(** *** The theorems at work *)

Lemma apiRequest_body_witness :
  ToBoolean (H := host) payload = true /\
  JSON_serializable (H := host) payload /\
  exists s,
    req_body (request_options (H := host) "/api/predict" (Some "POST") payload)
      = Some s /\
    JSON_stringify (Host := host) payload = Some s /\
    JSON_parse (Host := host) s = inl payload.
Proof.
  assert (JSON_serializable (H := host) payload) as Hser.
  { exists (json_text payload). split; vm_compute; reflexivity. }
  split; [reflexivity|]. split; [exact Hser|].
  destruct (apiRequest_body (H := host) net_ok "/api/predict" (Some "POST")
              payload page) as (_ & Htruthy & _).
  apply Htruthy; [reflexivity|exact Hser].
Defined.

Lemma apiRequest_status_message_witness :
  answer (H := host) net_forbidden "/api/stats" None VUndefined page =
    respond 403 (VObj [("error", VStr "Forbidden")]) /\
  (apiRequest (H := host) net_forbidden "/api/stats" None VUndefined page).2
    = inr (mkError "Error" "Forbidden").
Proof.
  split; [reflexivity|].
  destruct (apiRequest_status_message (H := host) net_forbidden
              "/api/stats" None VUndefined page
              (mkResponse 403 (inl (json_text (VObj [("error", VStr "Forbidden")]))))
              (json_text (VObj [("error", VStr "Forbidden")]))
              (VObj [("error", VStr "Forbidden")])
              (VStr "Forbidden"))
    as (_ & Hstr & _).
  - reflexivity.
  - reflexivity.
  - reflexivity.
  - vm_compute. reflexivity.
  - reflexivity.
  - apply Hstr; [reflexivity|discriminate].
Defined.

Lemma updateStats_failure_before_writing_witness :
  (exists e,
     (apiRequest (H := host) net_down "/api/stats" None VUndefined page).2
       = inr e) /\
  elements (updateStats (H := host) net_down page).1 = elements page /\
  (updateStats (H := host) net_down page).2 = inl tt.
Proof.
  assert (exists e,
     (apiRequest (H := host) net_down "/api/stats" None VUndefined page).2
       = inr e) as Hfail
    by (eexists; vm_compute; reflexivity).
  split; [exact Hfail|].
  destruct (updateStats_failure_before_writing (H := host) net_down page)
    as (Hel & Hret & _); [left; exact Hfail|].
  split; [exact Hel|exact Hret].
Defined.

(** The failing request of a server that is down is rethrown. *)
Example apiRequest_rethrows_down :
  exists e,
    (apiRequest (H := host) net_down "/api/stats" None VUndefined page).2
      = inr e /\
    toast_container
      (apiRequest (H := host) net_down "/api/stats" None VUndefined page).1 =
      Some [error_toast (err_message e) page].
Proof.
  destruct (apiRequest_rethrows (H := host) net_down
              "/api/stats" None VUndefined page) as (e & _ & He & Ht & _);
    [apply transport_failure|].
  exists e. split; [exact He|exact Ht].
Qed.


Lemma updateStats_skips_missing_sinks_witness :
  (apiRequest (H := host) net_ok "/api/stats" None VUndefined page).2
    = inl snapshot /\
  elements page !! "stat-fraud" = None /\
  (updateStats (H := host) net_ok page).2 = inl tt /\
  elements (updateStats (H := host) net_ok page).1 !! "stat-total" = Some "120" /\
  elements (updateStats (H := host) net_ok page).1 !! "stat-amount"
    = Some "$1,234.00" /\
  elements (updateStats (H := host) net_ok page).1 !! "stat-rate" = Some "2.00%" /\
  elements (updateStats (H := host) net_ok page).1 !! "stat-fraud" = None.
Proof.
  assert ((apiRequest (H := host) net_ok "/api/stats" None VUndefined page).2
            = inl snapshot) as Hdata by (vm_compute; reflexivity).
  split; [exact Hdata|]. split; [vm_compute; reflexivity|].
  destruct (updateStats_skips_missing_sinks (H := host) net_ok page snapshot
              (VNum (Some 120)) (VNum (Some 1234)) (VNum (Some 3)) (Some 2)
              "120" "$1,234.00" "3"
              Hdata eq_refl eq_refl eq_refl eq_refl eq_refl eq_refl eq_refl)
    as (Hret & _ & Habsent & Htotal & Hamount & _ & Hrate & _).
  split; [exact Hret|].
  split; [apply Htotal; eexists; vm_compute; reflexivity|].
  split; [apply Hamount; eexists; vm_compute; reflexivity|].
  split; [apply Hrate; eexists; vm_compute; reflexivity|].
  apply Habsent. vm_compute. reflexivity.
Defined.

Lemma poller_only_on_dashboard_witness :
  Forall (fun u => is_poll u = false) (timers page) /\
  periods_positive (timers page) /\
  ~ contains "/login" "dashboard" /\
  forall until fuel w',
    advance (H := host) net_ok fuel until (start_poller "/login" page) = Some w' ->
    requests w' = requests page.
Proof.
  assert (~ contains "/login" "dashboard") as Hnot.
  { intros Hc. apply includes_spec in Hc. vm_compute in Hc. discriminate. }
  split; [constructor|]. split; [constructor|]. split; [exact Hnot|].
  intros horizon.
  destruct (poller_only_on_dashboard (H := host) net_ok "/login" page)
    as (_ & _ & Hquiet); [constructor|constructor|].
  apply (Hquiet Hnot horizon).
Defined.

Lemma failed_tick_keeps_schedule_witness :
  armed 30000 (start_poller "/dashboard" page) /\
  periods_positive (timers (start_poller "/dashboard" page)) /\
  (net_flaky 0%nat (stats_request (H := host)) = Rejected (mkError "TypeError" "Failed to fetch")) /\
  forall fuel w',
    advance (H := host) net_flaky fuel 60000 (start_poller "/dashboard" page)
      = Some w' ->
    requests w' = [(30000, stats_request (H := host)); (60000, stats_request (H := host))].
Proof.
  assert (armed 30000 (start_poller "/dashboard" page)) as Harmed.
  { split; [reflexivity|cbn; lia]. }
  assert (periods_positive (timers (start_poller "/dashboard" page))) as Hpos.
  { constructor; [|constructor]. cbn. intros p [= <-]. lia. }
  split; [exact Harmed|]. split; [exact Hpos|]. split; [reflexivity|].
  intros fuel w' Hadv.
  destruct (failed_tick_keeps_schedule (H := host) net_flaky
              (start_poller "/dashboard" page) 30000 60000 Harmed Hpos)
    as (_ & _ & Hall).
  destruct (Hall fuel w' Hadv) as [Hreq _]. exact Hreq.
Defined.

Lemma apiRequest_parse_error_witness :
  resp_ok (mkResponse 502 (inl "<html>Bad Gateway</html>")) = false /\
  JSON_parse (Host := host) "<html>Bad Gateway</html>"
    = inr "Unexpected token in JSON" /\
  (apiRequest (H := host) net_gateway "/api/stats" None VUndefined page).2
    = inr (SyntaxError "Unexpected token in JSON").
Proof.
  split; [reflexivity|]. split; [vm_compute; reflexivity|].
  destruct (apiRequest_parse_error_before_status (H := host) net_gateway
              "/api/stats" None VUndefined page
              (mkResponse 502 (inl "<html>Bad Gateway</html>"))
              "<html>Bad Gateway</html>" "Unexpected token in JSON")
    as [Hthrown _]; [reflexivity|reflexivity|reflexivity|vm_compute; reflexivity|].
  exact Hthrown.
Defined.



Lemma toast_removed_after_delay_witness :
  node_unused page /\
  periods_positive (timers page) /\
  forall fuel w',
    advance (H := host) net_ok fuel 5300 (showToast "Saved" (Some "success") page)
      = Some w' ->
    0%nat ∉ toast_ids w'.
Proof.
  split; [reflexivity|]. split; [constructor|].
  intros fuel w' Hadv.
  destruct (toast_removed_after_delay (H := host) net_ok "Saved" (Some "success")
              page 5300) as (_ & _ & Hall); [reflexivity|constructor|].
  destruct (Hall fuel w' Hadv) as [Hgone _]. apply Hgone. cbn. lia.
Defined.

End Examples.

(** ** The CSV export keeps the table *)
Module CsvFacts.

Import Csv.

Lemma append_cons x (a b : string) : String x a +:+ b = String x (a +:+ b).
Proof. reflexivity. Qed.

Lemma append_nil (b : string) : "" +:+ b = b.
Proof. reflexivity. Qed.

Lemma append_nil_r (a : string) : a +:+ "" = a.
Proof.
  induction a as [|x a IH]; [reflexivity|]. now rewrite append_cons, IH.
Qed.

Lemma append_assoc (a b c : string) : (a +:+ b) +:+ c = a +:+ (b +:+ c).
Proof.
  induction a as [|x a IH]; [reflexivity|]. now rewrite !append_cons, IH.
Qed.

Lemma read_text t acc row rows rest :
  csv_read InText acc row rows (double_quotes t +:+ String dquote rest) =
  csv_read AfterQuote (rev (String.list_ascii_of_string t) ++ acc) row rows rest.
Proof.
  revert acc. induction t as [|c t IH]; intros acc; cbn [double_quotes].
  - rewrite append_nil. cbn [csv_read]. now rewrite Ascii.eqb_refl.
  - destruct (Ascii.eqb c dquote) eqn:E; rewrite !append_cons;
      cbn [csv_read String.list_ascii_of_string rev].
    + apply Ascii.eqb_eq in E. subst c.
      rewrite !Ascii.eqb_refl, IH, <- app_assoc. reflexivity.
    + rewrite E, IH, <- app_assoc. reflexivity.
Qed.

Lemma read_cell t row rows rest :
  csv_read AtField [] row rows (csv_cell t +:+ rest) =
  csv_read AfterQuote (rev (String.list_ascii_of_string t)) row rows rest.
Proof.
  unfold csv_cell. rewrite append_cons, append_assoc, append_cons, append_nil.
  cbn [csv_read]. now rewrite Ascii.eqb_refl, read_text, app_nil_r.
Qed.

Lemma field_text t :
  String.string_of_list_ascii (rev (rev (String.list_ascii_of_string t))) = t.
Proof. rewrite rev_involutive. apply String.string_of_list_ascii_of_string. Qed.

(** Reading one record leaves the reader after the closing quote of its
    last cell, with the cells of the record read. *)
Lemma read_row c cells row rows :
  exists field r,
    rev (String.string_of_list_ascii (rev field) :: r) = rev row ++ c :: cells /\
    forall rest,
      csv_read AtField [] row rows (csv_row (c :: cells) +:+ rest) =
      csv_read AfterQuote field r rows rest.
Proof.
  revert c row. induction cells as [|d cells IH]; intros c row.
  - exists (rev (String.list_ascii_of_string c)), row. split.
    + cbn. now rewrite field_text.
    + intros rest. apply read_cell.
  - destruct (IH d (c :: row)) as (field & r & Hrow & Hread).
    exists field, r. split.
    + rewrite Hrow. cbn. now rewrite <- app_assoc.
    + intros rest.
      change (csv_row (c :: d :: cells))
        with (csv_cell c +:+ "," +:+ csv_row (d :: cells)).
      rewrite !append_assoc, read_cell, append_cons, append_nil.
      cbn [csv_read].
      assert (Ascii.eqb ","%char dquote = false) as -> by reflexivity.
      rewrite Ascii.eqb_refl, field_text. apply Hread.
Qed.

Lemma comma_is_no_newline : Ascii.eqb newline ","%char = false.
Proof. reflexivity. Qed.

Lemma read_table table rows :
  Forall (fun r => r <> []) table ->
  table <> [] ->
  csv_read AtField [] [] rows (csv_content table) = Some (rev rows ++ table).
Proof.
  revert rows. induction table as [|r table IH]; intros rows Hne Hnil;
    [contradiction|].
  inversion Hne as [|? ? Hr Hne']; subst.
  destruct r as [|c cells]; [contradiction|].
  destruct (read_row c cells [] rows) as (field & r & Hrow & Hread).
  destruct table as [|r2 table].
  - unfold csv_content. cbn [map join].
    specialize (Hread ""). rewrite append_nil_r in Hread.
    rewrite Hread. cbn [csv_read]. rewrite Hrow. reflexivity.
  - change (csv_content ((c :: cells) :: r2 :: table))
      with (csv_row (c :: cells) +:+ String newline "" +:+ csv_content (r2 :: table)).
    rewrite Hread, append_cons, append_nil. cbn [csv_read].
    assert (Ascii.eqb newline dquote = false) as -> by reflexivity.
    rewrite comma_is_no_newline, Ascii.eqb_refl, Hrow. cbn [rev app].
    rewrite IH; [|exact Hne'|discriminate].
    cbn. now rewrite <- app_assoc.
Qed.

Lemma csv_content_starts table :
  Forall (fun r => r <> []) table -> table <> [] ->
  exists tail, csv_content table = String dquote tail.
Proof.
  intros Hne Hnil. destruct table as [|r table]; [contradiction|].
  inversion Hne as [|? ? Hr _]; subst.
  destruct r as [|c cells]; [contradiction|].
  unfold csv_content. destruct table as [|r2 table], cells as [|d cells];
    cbn; eauto.
Qed.

(** X1: the file that [exportTableToCSV] offers carries the name it was
    given and a content that a reader of quoted CSV decodes to the table
    again, cell by cell (quotes, commas and line breaks inside cells
    included), whenever every row has at least one cell. *)
Theorem export_decodes_to_table `{H : Host} table filename :
  Forall (fun r => r <> []) table ->
  exists d,
    exportTableToCSV (Some table) filename = inl d /\
    dl_filename d = filename /\
    csv_decode (dl_content d) = Some table.
Proof.
  intros Hne. eexists. split; [reflexivity|]. split; [reflexivity|]. cbn.
  destruct table as [|r table]; [reflexivity|].
  destruct (csv_content_starts (r :: table) Hne) as [tail Htail];
    [discriminate|].
  unfold csv_decode. rewrite Htail, <- Htail.
  now rewrite read_table.
Qed.

(** X2: two tables whose rows all have a cell and that differ in any
    cell are exported to different contents. *)
Theorem export_content_injective table1 table2 :
  Forall (fun r => r <> []) table1 ->
  Forall (fun r => r <> []) table2 ->
  csv_content table1 = csv_content table2 ->
  table1 = table2.
Proof.
  intros H1 H2 Heq.
  assert (forall t, Forall (fun r => r <> []) t -> csv_decode (csv_content t) = Some t)
    as Hdec.
  { intros t Ht. destruct t as [|r t]; [reflexivity|].
    destruct (csv_content_starts (r :: t) Ht) as [tail Htail]; [discriminate|].
    unfold csv_decode. rewrite Htail, <- Htail. now rewrite read_table. }
  pose proof (Hdec _ H1) as D1. pose proof (Hdec _ H2) as D2.
  rewrite Heq in D1. congruence.
Qed.

Lemma export_decodes_to_table_witness :
  Forall (fun r => r <> []) sample_table /\
  exists d,
    exportTableToCSV (H := IntegerHost.host) (Some sample_table) "report.csv"
      = inl d /\
    dl_filename d = "report.csv" /\
    csv_decode (dl_content d) = Some sample_table.
Proof.
  assert (Forall (fun r : list string => r <> []) sample_table) as Hrows
    by (repeat constructor; discriminate).
  split; [exact Hrows|].
  apply (export_decodes_to_table (H := IntegerHost.host) sample_table
           "report.csv" Hrows).
Defined.

Lemma export_content_injective_witness :
  Forall (fun r => r <> []) sample_table /\
  csv_content sample_table = csv_content sample_table /\
  sample_table = sample_table.
Proof.
  assert (Forall (fun r : list string => r <> []) sample_table) as Hrows
    by (repeat constructor; discriminate).
  split; [exact Hrows|]. split; [reflexivity|].
  apply (export_content_injective sample_table sample_table Hrows Hrows eq_refl).
Defined.

End CsvFacts.

(** ** What the validation of a form leaves behind *)
Module FormFacts.

Import Form.

Lemma trim_start_nil s : trim_start s = [] <-> blank s = true.
Proof.
  induction s as [|u s IH]; cbn; [tauto|].
  destruct (is_space u); cbn; [exact IH|]. split; discriminate.
Qed.

Lemma blank_app s t : blank (s ++ t) = blank s && blank t.
Proof. unfold blank. apply forallb_app. Qed.

Lemma blank_rev s : blank (rev s) = blank s.
Proof.
  induction s as [|u s IH]; [reflexivity|].
  cbn [rev]. rewrite blank_app, IH. unfold blank. cbn [forallb].
  rewrite andb_true_r. apply andb_comm.
Qed.

Lemma blank_trim_start s : blank (trim_start s) = blank s.
Proof.
  induction s as [|u s IH]; [reflexivity|]. cbn.
  destruct (is_space u) eqn:E; cbn; [exact IH|]. now rewrite E.
Qed.

(** [trim] leaves nothing exactly of the texts that are white space only. *)
Lemma trim_nil s : trim s = [] <-> blank s = true.
Proof.
  unfold trim, trim_end.
  rewrite <- blank_trim_start, <- (blank_rev (trim_start s)), <- trim_start_nil.
  split; intros Ht.
  - apply (f_equal (@rev N)) in Ht. now rewrite rev_involutive in Ht.
  - now rewrite Ht.
Qed.

Lemma add_has token classes : token ∈ classList_add token classes.
Proof.
  unfold classList_add. case_bool_decide; [assumption|].
  apply elem_of_app. right. constructor.
Qed.

Lemma add_others token classes :
  filter (fun t => t ≠ token) (classList_add token classes) =
  filter (fun t => t ≠ token) classes.
Proof.
  unfold classList_add. case_bool_decide; [reflexivity|].
  rewrite filter_app, filter_cons. case_decide; [congruence|].
  now rewrite filter_nil, app_nil_r.
Qed.

Lemma remove_has_not token classes : token ∉ classList_remove token classes.
Proof. unfold classList_remove. rewrite list_elem_of_filter. tauto. Qed.

Lemma remove_others token classes :
  filter (fun t => t ≠ token) (classList_remove token classes) =
  filter (fun t => t ≠ token) classes.
Proof.
  unfold classList_remove. induction classes as [|t classes IH]; [reflexivity|].
  rewrite filter_cons. case_decide.
  - rewrite !filter_cons. case_decide; [|contradiction]. now rewrite IH.
  - exact IH.
Qed.

Lemma remove_absent token classes :
  token ∉ classes -> classList_remove token classes = classes.
Proof.
  unfold classList_remove. induction classes as [|t classes IH]; intros Hn;
    [reflexivity|].
  rewrite not_elem_of_cons in Hn. destruct Hn as [Hne Hn].
  rewrite filter_cons. case_decide; [|congruence]. now rewrite IH.
Qed.

Lemma add_present token classes :
  token ∈ classes -> classList_add token classes = classes.
Proof. intros Hin. unfold classList_add. now case_bool_decide. Qed.

Section Validate.

Context `{H : Host}.

(** The validation of readable elements: the answer and the marks. *)
Lemma validate_each_readable controls isValid :
  Forall readable controls ->
  exists controls',
    validate_each controls isValid =
      (controls', inl (isValid && negb (existsb missing controls))) /\
    Forall2 marked controls controls'.
Proof.
  revert isValid. induction controls as [|c controls IH]; intros isValid Hr.
  - exists []. cbn. rewrite andb_true_r. split; [reflexivity|constructor].
  - inversion Hr as [|? ? Hc Hr']; subst.
    cbn [validate_each existsb]. unfold missing at 1.
    destruct (ctl_required c) eqn:Ereq.
    + destruct (Hc Ereq) as [v Hv]. rewrite Hv. cbn [andb].
      destruct (trim v) as [|u t] eqn:Et.
      * assert (blank v = true) as Hb by (apply trim_nil; exact Et).
        destruct (IH false Hr') as (controls' & -> & Hm).
        rewrite Hb. cbn. rewrite andb_false_r.
        eexists. split; [reflexivity|]. constructor; [|exact Hm].
        unfold marked. cbn. rewrite Ereq.
        split; [reflexivity|]. split; [reflexivity|].
        split; [discriminate|]. intros _. split.
        -- unfold missing. rewrite Ereq, Hv, Hb. cbn.
           split; [reflexivity|]. intros _. apply add_has.
        -- apply add_others.
      * assert (blank v = false) as Hb.
        { destruct (blank v) eqn:Eb; [|reflexivity].
          apply trim_nil in Eb. congruence. }
        destruct (IH isValid Hr') as (controls' & -> & Hm).
        rewrite Hb. cbn.
        eexists. split; [reflexivity|]. constructor; [|exact Hm].
        unfold marked. cbn. rewrite Ereq.
        split; [reflexivity|]. split; [reflexivity|].
        split; [discriminate|]. intros _. split.
        -- unfold missing. rewrite Ereq, Hv, Hb. cbn.
           split; [|discriminate]. intros Hin.
           now apply remove_has_not in Hin.
        -- apply remove_others.
    + destruct (IH isValid Hr') as (controls' & -> & Hm). cbn.
      eexists. split; [reflexivity|]. constructor; [|exact Hm].
      unfold marked. rewrite Ereq. repeat split; try discriminate; auto.
Qed.

(** X3: on a form whose required elements are all form controls,
    [validateForm] answers [true] exactly when no required control has a
    value that is empty or white space only. *)
Theorem validateForm_answer controls :
  Forall readable controls ->
  exists ok,
    (validateForm (Some controls)).2 = inl ok /\
    (ok = true <->
     forall c v, c ∈ controls -> ctl_required c = true ->
                 ctl_value c = TextValue v -> blank v = false).
Proof.
  intros Hr. unfold validateForm.
  destruct (validate_each_readable controls true Hr) as (controls' & -> & _).
  eexists. split; [reflexivity|]. cbn [andb].
  rewrite negb_true_iff. split.
  - intros Hno c v Hin Hreq Hv.
    destruct (blank v) eqn:Hb; [|reflexivity].
    assert (existsb missing controls = true) as Hex; [|congruence].
    apply existsb_exists. exists c. split; [now apply list_elem_of_In|].
    unfold missing. now rewrite Hreq, Hv, Hb.
  - intros Hall. destruct (existsb missing controls) eqn:Hex; [|reflexivity].
    apply existsb_exists in Hex as (c & Hin & Hm).
    apply list_elem_of_In in Hin. unfold missing in Hm.
    destruct (ctl_required c) eqn:Hreq; [|discriminate].
    destruct (ctl_value c) as [v| |] eqn:Hv; try discriminate.
    cbn in Hm. rewrite (Hall c v Hin Hreq Hv) in Hm. discriminate.
Qed.

(** X4: after [validateForm] every required control carries the token
    [is-invalid] exactly when its value is empty or white space only,
    whatever it carried before; its other tokens, the values and the
    elements that are not required are as they were. *)
Theorem validateForm_marks controls :
  Forall readable controls ->
  exists controls',
    (validateForm (Some controls)).1 = Some controls' /\
    Forall2 marked controls controls'.
Proof.
  intros Hr. unfold validateForm.
  destruct (validate_each_readable controls true Hr) as (controls' & -> & Hm).
  exists controls'. split; [reflexivity|exact Hm].
Qed.

Lemma marked_readable c c' : marked c c' -> readable c -> readable c'.
Proof.
  intros (Hreq & Hval & _) Hr. unfold readable in *.
  rewrite Hreq, Hval. exact Hr.
Qed.

Lemma marked_missing c c' : marked c c' -> missing c' = missing c.
Proof. intros (Hreq & Hval & _). unfold missing. now rewrite Hreq, Hval. Qed.

(** Validating elements that carry the right marks changes nothing. *)
Lemma validate_each_settled controls isValid :
  Forall readable controls ->
  Forall (fun c => ctl_required c = true ->
                   ("is-invalid" ∈ ctl_classes c <-> missing c = true)) controls ->
  validate_each controls isValid =
  (controls, inl (isValid && negb (existsb missing controls))).
Proof.
  revert isValid. induction controls as [|c controls IH]; intros isValid Hr Hs.
  - cbn. now rewrite andb_true_r.
  - inversion Hr as [|? ? Hc Hr']; inversion Hs as [|? ? Hsc Hs']; subst.
    cbn [validate_each existsb]. unfold missing at 1. unfold missing in Hsc.
    destruct (ctl_required c) eqn:Ereq.
    + destruct (Hc Ereq) as [v Hv]. rewrite Hv in *. cbn [andb] in *.
      specialize (Hsc eq_refl).
      destruct (trim v) as [|u t] eqn:Et.
      * assert (blank v = true) as Hb by (apply trim_nil; exact Et).
        rewrite (IH false Hr' Hs'), Hb. cbn. rewrite andb_false_r.
        rewrite add_present by (apply Hsc; exact Hb).
        destruct c; cbn in *. subst. reflexivity.
      * assert (blank v = false) as Hb.
        { destruct (blank v) eqn:Eb; [|reflexivity].
          apply trim_nil in Eb. congruence. }
        rewrite (IH isValid Hr' Hs'), Hb. cbn.
        rewrite remove_absent.
        -- destruct c; cbn in *. subst. reflexivity.
        -- intros Hin. apply Hsc in Hin. congruence.
    + rewrite (IH isValid Hr' Hs'). reflexivity.
Qed.

Lemma marked_all_missing l l' :
  Forall2 marked l l' -> existsb missing l' = existsb missing l.
Proof.
  induction 1 as [|c c' l l' Hc Hm IH]; [reflexivity|].
  cbn. now rewrite (marked_missing _ _ Hc), IH.
Qed.

Lemma marked_all_readable l l' :
  Forall2 marked l l' -> Forall readable l -> Forall readable l'.
Proof.
  induction 1 as [|c c' l l' Hc Hm IH]; intros Hr; [constructor|].
  inversion Hr; subst. constructor; [eapply marked_readable; eauto|auto].
Qed.

Lemma marked_all_settled l l' :
  Forall2 marked l l' ->
  Forall (fun c => ctl_required c = true ->
                   ("is-invalid" ∈ ctl_classes c <-> missing c = true)) l'.
Proof.
  induction 1 as [|c c' l l' Hc Hm IH]; constructor; [|exact IH].
  intros Hreq. rewrite (marked_missing _ _ Hc).
  destruct Hc as (Hreq' & _ & _ & Hmark). rewrite Hreq' in Hreq.
  apply (Hmark Hreq).
Qed.

(** X5: validating a form a second time changes nothing and gives the
    same answer. *)
Theorem validateForm_idempotent controls :
  Forall readable controls ->
  validateForm (validateForm (Some controls)).1 = validateForm (Some controls).
Proof.
  intros Hr. unfold validateForm at 2 3.
  destruct (validate_each_readable controls true Hr) as (controls' & Hv & Hm).
  rewrite Hv. cbn [fst]. unfold validateForm.
  rewrite validate_each_settled.
  - now rewrite (marked_all_missing _ _ Hm).
  - exact (marked_all_readable _ _ Hm Hr).
  - exact (marked_all_settled _ _ Hm).
Qed.

(** X6: a required element without a text value stops the validation
    with a TypeError: the elements before it are marked, it and the elements
    after it are as they were. *)
Theorem validateForm_stops before c after :
  Forall readable before ->
  ctl_required c = true ->
  (forall v, ctl_value c <> TextValue v) ->
  exists before' e,
    validateForm (Some (before ++ c :: after)) =
      (Some (before' ++ c :: after), inr e) /\
    Forall2 marked before before'.
Proof.
  intros Hr Hreq Hval.
  assert (forall isValid, exists before' e,
            validate_each (before ++ c :: after) isValid =
              (before' ++ c :: after, inr e) /\
            Forall2 marked before before') as Hgo.
  { induction before as [|b before IH]; intros isValid.
    - exists []. cbn [app validate_each]. rewrite Hreq.
      destruct (ctl_value c) as [v| |]; [now destruct (Hval v)| |];
        eexists; (split; [reflexivity|constructor]).
    - inversion Hr as [|? ? Hb Hr']; subst.
      destruct (validate_each_readable [b] isValid) as (b' & Hone & Hm);
        [constructor; [exact Hb|constructor]|].
      inversion Hm as [|? b1 ? ? Hb1 Hnil]; subst. inversion Hnil; subst.
      cbn [app validate_each] in *.
      destruct (ctl_required b) eqn:Ereq.
      + destruct (Hb Ereq) as [v Hv]. rewrite Hv in *.
        destruct (trim v).
        * destruct (IH Hr' false) as (before' & e & -> & Hm').
          inversion Hone; subst.
          eexists (_ :: before'), e. split; [reflexivity|].
          constructor; assumption.
        * destruct (IH Hr' isValid) as (before' & e & -> & Hm').
          inversion Hone; subst.
          eexists (_ :: before'), e. split; [reflexivity|].
          constructor; assumption.
      + destruct (IH Hr' isValid) as (before' & e & -> & Hm').
        inversion Hone; subst.
        eexists (_ :: before'), e. split; [reflexivity|].
        constructor; assumption. }
  destruct (Hgo true) as (before' & e & Hv & Hm).
  exists before', e. unfold validateForm. rewrite Hv. auto.
Qed.

End Validate.

Lemma sample_form_readable : Forall readable sample_form.
Proof.
  repeat (constructor; [intros _; eexists; reflexivity|]). constructor.
Qed.

Lemma validateForm_answer_witness :
  Forall readable sample_form /\
  exists ok,
    (validateForm (H := IntegerHost.host) (Some sample_form)).2 = inl ok /\
    (ok = true <->
     forall c v, c ∈ sample_form -> ctl_required c = true ->
                 ctl_value c = TextValue v -> blank v = false).
Proof.
  split; [exact sample_form_readable|].
  apply (validateForm_answer (H := IntegerHost.host) sample_form
           sample_form_readable).
Defined.

Lemma validateForm_marks_witness :
  Forall readable sample_form /\
  exists controls',
    (validateForm (H := IntegerHost.host) (Some sample_form)).1 = Some controls' /\
    Forall2 marked sample_form controls'.
Proof.
  split; [exact sample_form_readable|].
  apply (validateForm_marks (H := IntegerHost.host) sample_form
           sample_form_readable).
Defined.

Lemma validateForm_idempotent_witness :
  Forall readable sample_form /\
  validateForm (H := IntegerHost.host)
    (validateForm (H := IntegerHost.host) (Some sample_form)).1 =
  validateForm (H := IntegerHost.host) (Some sample_form).
Proof.
  split; [exact sample_form_readable|].
  apply (validateForm_idempotent (H := IntegerHost.host) sample_form
           sample_form_readable).
Defined.

Lemma validateForm_stops_witness :
  Forall readable (take 2 sample_form) /\
  exists before' e,
    validateForm (H := IntegerHost.host)
      (Some (take 2 sample_form ++ mkControl true NoValue [] :: drop 2 sample_form)) =
      (Some (before' ++ mkControl true NoValue [] :: drop 2 sample_form), inr e) /\
    Forall2 marked (take 2 sample_form) before'.
Proof.
  assert (Forall readable (take 2 sample_form)) as Hr.
  { repeat (constructor; [intros _; eexists; reflexivity|]). constructor. }
  split; [exact Hr|].
  apply (validateForm_stops (H := IntegerHost.host) (take 2 sample_form)
           (mkControl true NoValue []) (drop 2 sample_form) Hr eq_refl).
  intros v. discriminate.
Defined.

Example validateForm_sample :
  validateForm (H := IntegerHost.host) (Some sample_form) =
  (Some [mkControl true (TextValue [74; 111]%N) ["form-control"];
         mkControl true (TextValue [32; 160; 9]%N) ["form-control"; "is-invalid"];
         mkControl false (TextValue []) ["form-control"];
         mkControl true (TextValue []) ["is-invalid"]],
   inl false).
Proof. reflexivity. Qed.

End FormFacts.

(** ** What a debounced function calls *)
Module DebounceFacts.

Import Debounce.

Lemma timer_delay_small wait :
  0 <= wait < 2147483648 -> timer_delay wait = wait.
Proof.
  intros Hw. unfold timer_delay, ToInt32.
  rewrite Z.mod_small by lia. lia.
Qed.

Lemma timer_delay_nonneg wait : 0 <= timer_delay wait.
Proof. unfold timer_delay. lia. Qed.

Section Debounced.

Context {A : Type}.

Implicit Types (s : @state A) (calls : list (Z * A)).

Lemma pass_idle inclusive until s :
  db_timers s = [] -> pass inclusive until s = at_time until s.
Proof. intros Ht. unfold pass. now rewrite Ht. Qed.

Lemma pass_early inclusive until s p :
  db_timers s = [p] -> is_due inclusive until p = false ->
  pass inclusive until s = at_time until s.
Proof.
  intros Ht Hd. unfold pass. rewrite Ht. cbn. rewrite Ht. cbn.
  now rewrite Hd.
Qed.

Lemma pass_due inclusive until s p :
  db_timers s = [p] -> db_timeout s = Some (p_handle p) ->
  db_now s <= p_due p -> is_due inclusive until p = true ->
  pass inclusive until s =
  mkState until (db_timeout s) [] (db_next s)
          (db_calls s ++ [(p_due p, p_args p)]).
Proof.
  intros Ht Hto Hnow Hd. unfold pass. rewrite Ht. cbn. rewrite Ht. cbn.
  rewrite Hd.
  assert (p_due p <= until) as Hle.
  { unfold is_due in Hd. apply orb_true_iff in Hd as [Hd|Hd]; [lia|].
    apply andb_true_iff in Hd as [_ Hd]. lia. }
  unfold later, at_time. cbn. rewrite Hto. cbn.
  f_equal; [lia|]. do 3 f_equal. lia.
Qed.

Lemma is_due_le inclusive until (p : @pending_call A) :
  is_due inclusive until p = true -> p_due p <= until.
Proof.
  unfold is_due. intros Hd. apply orb_true_iff in Hd as [Hd|Hd]; [lia|].
  apply andb_true_iff in Hd as [_ Hd]. lia.
Qed.

Lemma is_due_ge inclusive until (p : @pending_call A) :
  is_due inclusive until p = false -> until <= p_due p.
Proof.
  unfold is_due. intros Hd. apply orb_false_iff in Hd as [Hd _]. lia.
Qed.

(** A call leaves the closure waiting for the timer of that call alone. *)
Lemma call_at_settled timer_first wait t args s :
  settled s -> db_now s <= t ->
  exists handle,
    let s' := call_at timer_first wait (t, args) s in
    db_timers s' = [mkPending handle (t + timer_delay wait) args] /\
    db_timeout s' = Some handle /\
    db_now s' = t /\
    db_calls s' =
      db_calls s ++
      match db_timers s with
      | [p] => if is_due timer_first t p then [(p_due p, p_args p)] else []
      | _ => []
      end.
Proof.
  intros [Hidle|(p & Ht & Hto & Hnow)] Hle; unfold call_at; cbn [fst snd].
  - rewrite (pass_idle _ _ _ Hidle).
    unfold executedFunction, at_time. cbn. rewrite Hidle.
    exists (db_next s). cbn.
    replace (Z.max (db_now s) t) with t by lia.
    rewrite app_nil_r. repeat split.
    destruct (db_timeout s); reflexivity.
  - rewrite Ht.
    destruct (is_due timer_first t p) eqn:Hd.
    + rewrite (pass_due _ _ _ _ Ht Hto Hnow Hd).
      unfold executedFunction. cbn. exists (db_next s). rewrite Hto. cbn.
      repeat split.
    + rewrite (pass_early _ _ _ _ Ht Hd).
      unfold executedFunction, at_time. cbn. rewrite Ht, Hto. cbn.
      exists (db_next s).
      replace (Z.max (db_now s) t) with t by lia.
      case_decide; [congruence|].
      rewrite app_nil_r. repeat split.
Qed.

Lemma call_at_keeps_settled timer_first wait t args s :
  settled s -> db_now s <= t -> settled (call_at timer_first wait (t, args) s).
Proof.
  intros Hs Hle.
  destruct (call_at_settled timer_first wait t args s Hs Hle)
    as (h & Ht & Hto & Hnow & _).
  right. eexists. split; [exact Ht|]. split; [exact Hto|].
  rewrite Hnow. cbn. pose proof (timer_delay_nonneg wait). lia.
Qed.

Lemma run_calls_settled first i wait calls s :
  settled s -> in_time (db_now s) calls ->
  settled (run_calls first i wait calls s).
Proof.
  revert i s. induction calls as [|[t a] calls IH]; intros i s Hs Hin.
  - exact Hs.
  - destruct Hin as [Hle Hin]. cbn [run_calls].
    destruct (call_at_settled (first i) wait t a s Hs Hle)
      as (h & _ & _ & Hnow & _).
    cbn zeta in Hnow.
    apply IH; [now apply call_at_keeps_settled|now rewrite Hnow].
Qed.

Lemma run_calls_calls first i wait calls until s :
  settled s -> in_time (db_now s) calls ->
  apart (timer_delay wait) calls -> clear_of (waiting_of s) calls ->
  db_calls (pass true until (run_calls first i wait calls s)) =
  db_calls s ++ invocations (timer_delay wait) (waiting_of s) calls until.
Proof.
  revert i s. induction calls as [|[t args] calls IH];
    intros i s Hs Hin Hap Hcl.
  - cbn [run_calls invocations].
    destruct Hs as [Hidle|(p & Ht & Hto & Hnow)]; unfold waiting_of.
    + rewrite (pass_idle _ _ _ Hidle), Hidle. cbn. now rewrite app_nil_r.
    + rewrite Ht. destruct (is_due true until p) eqn:Hd.
      * rewrite (pass_due _ _ _ _ Ht Hto Hnow Hd).
        apply is_due_le in Hd.
        destruct (Z.leb_spec (p_due p) until); [reflexivity|lia].
      * rewrite (pass_early _ _ _ _ Ht Hd). cbn [at_time db_calls].
        unfold is_due in Hd. cbn [andb] in Hd.
        destruct (Z.leb_spec (p_due p) until); [lia|now rewrite app_nil_r].
  - destruct Hin as [Hle Hin].
    destruct (call_at_settled (first i) wait t args s Hs Hle)
      as (h & Ht & Hto & Hnow & Hcalls).
    cbn zeta in *. cbn [run_calls]. rewrite IH.
    + rewrite Hcalls. unfold waiting_of at 1. rewrite Ht.
      cbn [invocations p_due p_args]. rewrite <- app_assoc. do 2 f_equal.
      unfold waiting_of, clear_of in *.
      destruct (db_timers s) as [|p [|q l]]; try reflexivity.
      unfold is_due.
      destruct (Z.eqb_spec (p_due p) t) as [He|He]; [congruence|].
      now rewrite andb_false_r, orb_false_r.
    + now apply call_at_keeps_settled.
    + now rewrite Hnow.
    + destruct calls as [|[t' a'] calls']; [exact I|]. apply Hap.
    + unfold clear_of, waiting_of. rewrite Ht. cbn.
      destruct calls as [|[t' a'] calls']; [exact I|]. apply Hap.
Qed.

(** X7: on a closure fresh from [debounce], a series of calls, none
    of them at the very time the timer of the call before is due, leads to
    exactly these calls of [func]: one for each call that is not followed
    by another call before its delay has passed, with the arguments of that
    call, one delay after it; the delay is [wait] as [setTimeout] takes it,
    reduced to 32 bits and zero when negative. *)
Theorem debounce_invocations first wait start calls until :
  in_time start calls ->
  apart (timer_delay wait) calls ->
  db_calls (play first wait calls until (fresh start)) =
  invocations (timer_delay wait) None calls until.
Proof.
  intros Hin Hap. unfold play.
  rewrite run_calls_calls; [reflexivity|now left|exact Hin|exact Hap|].
  now destruct calls as [|[? ?] ?].
Qed.

Lemma burst_apart delay calls : burst delay calls -> apart delay calls.
Proof.
  induction calls as [|[t a] [|[t' a'] calls] IH]; cbn; auto.
  intros [Hlt Hb]. split; [lia|]. now apply IH.
Qed.

Lemma invocations_burst delay waiting calls t args until :
  burst delay (calls ++ [(t, args)]) ->
  match waiting, calls ++ [(t, args)] with
  | Some (due, _), (t1, _) :: _ => t1 < due
  | _, _ => True
  end ->
  invocations delay waiting (calls ++ [(t, args)]) until =
  if t + delay <=? until then [(t + delay, args)] else [].
Proof.
  revert waiting. induction calls as [|[t1 a1] calls IH]; intros waiting Hb Hw.
  - simpl in *. destruct waiting as [[due a]|]; [|reflexivity].
    destruct (Z.ltb_spec due t); [lia|reflexivity].
  - simpl app in *. cbn [invocations].
    assert ((match waiting with
             | Some (due, a) => if due <? t1 then [(due, a)] else []
             | None => []
             end) = []) as ->.
    { destruct waiting as [[due a]|]; [|reflexivity].
      destruct (Z.ltb_spec due t1); [lia|reflexivity]. }
    simpl app. apply IH.
    + destruct calls as [|[t2 a2] calls]; simpl in *; tauto.
    + destruct calls as [|[t2 a2] calls]; simpl in *; tauto.
Qed.

(** X8: calls that follow each other by less than the delay lead to
    one call of [func], with the arguments of the last call, one delay
    after it, and to none before that time; the delay is [wait] as
    [setTimeout] takes it, so [wait] itself when it is below 2^31. *)
Theorem debounce_burst first wait start calls t args until :
  in_time start (calls ++ [(t, args)]) ->
  burst (timer_delay wait) (calls ++ [(t, args)]) ->
  db_calls (play first wait (calls ++ [(t, args)]) until (fresh start)) =
    (if t + timer_delay wait <=? until
     then [(t + timer_delay wait, args)] else []) /\
  (0 <= wait < 2147483648 -> timer_delay wait = wait).
Proof.
  intros Hin Hb. split; [|apply timer_delay_small]. unfold play.
  rewrite run_calls_calls;
    [|now left|exact Hin|now apply burst_apart|
     now destruct (calls ++ [(t, args)]) as [|[? ?] ?]].
  change (db_calls (fresh start)) with (@nil (Z * A)).
  change (waiting_of (fresh start)) with (@None (Z * A)).
  rewrite app_nil_l.
  apply invocations_burst; [exact Hb|].
  destruct (calls ++ [(t, args)]) as [|[? ?] ?]; exact I.
Qed.

(** X9: the closure never has more than one timer pending, and its
    variable [timeout] holds the handle of that timer. *)
Theorem debounce_one_timer first wait start calls until :
  in_time start calls ->
  settled (play first wait calls until (fresh start)).
Proof.
  intros Hin.
  assert (settled (fresh (A := A) start)) as Hfresh by now left.
  pose proof (run_calls_settled first O wait calls (fresh start) Hfresh Hin)
    as Hs.
  unfold play.
  set (s := run_calls _ _ _ _ _) in *.
  destruct Hs as [Hidle|(p & Ht & Hto & Hnow)].
  - rewrite (pass_idle _ _ _ Hidle). now left.
  - destruct (is_due true until p) eqn:Hd.
    + rewrite (pass_due _ _ _ _ Ht Hto Hnow Hd). now left.
    + rewrite (pass_early _ _ _ _ Ht Hd). right. exists p.
      apply is_due_ge in Hd.
      unfold at_time. cbn. repeat split; auto. lia.
Qed.

End Debounced.

Lemma debounce_invocations_witness :
  in_time 0 sample_calls /\
  apart (timer_delay 300) sample_calls /\
  db_calls (play timers_first 300 sample_calls 1000 (fresh 0)) =
  invocations (timer_delay 300) None sample_calls 1000.
Proof.
  assert (in_time 0 sample_calls) as Hin by (cbn; lia).
  assert (apart (timer_delay 300) sample_calls) as Hap
    by (vm_compute; repeat split; discriminate).
  split; [exact Hin|]. split; [exact Hap|].
  apply (debounce_invocations timers_first 300 0 sample_calls 1000 Hin Hap).
Defined.

Lemma debounce_burst_witness :
  in_time 0 (sample_burst ++ [(250, "abc")]) /\
  burst (timer_delay 300) (sample_burst ++ [(250, "abc")]) /\
  db_calls (play timers_first 300 (sample_burst ++ [(250, "abc")]) 1000
              (fresh 0)) =
  [(550, "abc")].
Proof.
  assert (in_time 0 (sample_burst ++ [(250, "abc")])) as Hin by (cbn; lia).
  assert (burst (timer_delay 300) (sample_burst ++ [(250, "abc")])) as Hb
    by (vm_compute; repeat split; reflexivity).
  split; [exact Hin|]. split; [exact Hb|].
  apply (debounce_burst timers_first 300 0 sample_burst 250 "abc" 1000 Hin Hb).
Defined.

Lemma debounce_one_timer_witness :
  in_time 0 sample_calls /\
  settled (play timers_first 300 sample_calls 600 (fresh 0)).
Proof.
  assert (in_time 0 sample_calls) as Hin by (cbn; lia).
  split; [exact Hin|].
  apply (debounce_one_timer timers_first 300 0 sample_calls 600 Hin).
Defined.

(** The sample keystrokes lead to two searches: for the second and for
    the third text. *)
Example debounce_sample :
  db_calls (play timers_first 300 sample_calls 1000 (fresh 0)) =
  [(400, "ab"); (800, "abc")].
Proof. reflexivity. Qed.

(** Two calls by one handler with no delay: the timer of the first cannot
    run between them, and [func] is called once, for the second. *)
Example debounce_same_time :
  db_calls (play (fun _ => false) 0 [(0, "a"); (0, "b")] 10 (fresh 0)) =
  [(0, "b")].
Proof. reflexivity. Qed.

(** A delay of 2^31 ms wraps to a negative number and counts as zero. *)
Example debounce_wrapped_delay :
  timer_delay 2147483648 = 0 /\
  db_calls (play timers_first 2147483648 [(0, "a"); (100, "b")] 200 (fresh 0)) =
  [(0, "a"); (100, "b")].
Proof. split; reflexivity. Qed.

End DebounceFacts.

(** ** What a search shows *)
Module SearchFacts.

Import Search.

Section Search.

Context `{H : Host}.
Variable toLowerCase : string -> string.

Lemma lookup_map {A B} (f : A -> B) (l : list A) i :
  map f l !! i = f <$> l !! i.
Proof.
  revert i. induction l as [|x l IH]; intros [|i]; cbn; auto.
Qed.

Lemma lookup_body {A} (f : A -> A) (head : A) (body : list A) i :
  (head :: map f body) !! S i = f <$> body !! i.
Proof. apply lookup_map. Qed.

Lemma show_show f1 f2 r :
  show toLowerCase f2 (show toLowerCase f1 r) = show toLowerCase f2 r.
Proof. reflexivity. Qed.

Lemma contains_trans s a b : contains s a -> contains a b -> contains s b.
Proof.
  intros (pre & post & ->) (pre' & post' & ->).
  exists (pre +:+ pre'), (post' +:+ post).
  now rewrite !CsvFacts.append_assoc.
Qed.

Lemma found_narrows f1 f2 cells :
  contains f2 f1 ->
  found toLowerCase f2 cells = true -> found toLowerCase f1 cells = true.
Proof.
  intros Hc. unfold found. rewrite !existsb_exists.
  intros (text & Hin & Hf). exists text. split; [exact Hin|].
  apply includes_spec. apply includes_spec in Hf.
  now apply contains_trans with f2.
Qed.

Lemma includes_empty s : includes s "" = true.
Proof. apply includes_spec. now exists "", s. Qed.

Lemma found_empty cells :
  found toLowerCase "" cells = match cells with [] => false | _ => true end.
Proof.
  destruct cells as [|text cells]; [reflexivity|].
  cbn [found existsb]. now rewrite includes_empty.
Qed.

(** X10: what a search shows depends on the text of the box and on the
    cells alone, not on what was shown before: a search after another
    search leaves the table as it would alone. *)
Theorem search_last_wins value1 value2 rows :
  search_rows toLowerCase value2 (search_rows toLowerCase value1 rows) =
  search_rows toLowerCase value2 rows.
Proof.
  destruct rows as [|head body]; [reflexivity|].
  cbn [search_rows]. f_equal. rewrite map_map.
  apply map_ext. intros r. apply show_show.
Qed.

(** X11: when the text of the box, in lower case, holds the lower
    case of an earlier text, every row that the search shows was shown by
    the search for the earlier text. *)
Theorem search_narrows value1 value2 rows i r1 r2 :
  contains (toLowerCase value2) (toLowerCase value1) ->
  search_rows toLowerCase value1 rows !! S i = Some r1 ->
  search_rows toLowerCase value2 rows !! S i = Some r2 ->
  row_display r2 = "" -> row_display r1 = "".
Proof.
  intros Hc H1 H2. destruct rows as [|head body]; [discriminate|].
  cbn [search_rows] in H1, H2. rewrite lookup_body in H1, H2.
  destruct (body !! i) as [r|]; [|discriminate].
  cbn in H1, H2. injection H1 as <-. injection H2 as <-.
  cbn [show row_display].
  destruct (found toLowerCase (toLowerCase value2) (row_cells r)) eqn:Hf2;
    [|discriminate].
  intros _. now rewrite (found_narrows _ _ _ Hc Hf2).
Qed.

(** X12: a search for the empty text does not show the whole table
    again: after the first row, a row with a [td] cell is shown and a row
    without one is hidden. *)
Theorem search_empty_box rows i r :
  toLowerCase "" = "" ->
  rows !! S i = Some r ->
  search_rows toLowerCase "" rows !! S i =
  Some (mkRow (row_cells r)
              (match row_cells r with [] => "none" | _ => "" end)).
Proof.
  intros Hlow Hr. destruct rows as [|head body]; [discriminate|].
  cbn [search_rows]. rewrite lookup_body.
  change (body !! i = Some r) in Hr. rewrite Hr. cbn.
  unfold show. rewrite Hlow, found_empty. now destruct (row_cells r).
Qed.

(** X13: a search changes neither the first row nor the cells of any
    row, and it hides every later row that has no [td] cell, whatever the
    text of the box. *)
Theorem search_frame value rows :
  search_rows toLowerCase value rows !! O = rows !! O /\
  map row_cells (search_rows toLowerCase value rows) = map row_cells rows /\
  forall i r, search_rows toLowerCase value rows !! S i = Some r ->
              row_cells r = [] -> row_display r = "none".
Proof.
  destruct rows as [|head body]; [repeat split; discriminate|].
  cbn [search_rows]. split; [reflexivity|]. split.
  - cbn. f_equal. rewrite map_map. now apply map_ext.
  - intros i r Hr Hcells. rewrite lookup_body in Hr.
    destruct (body !! i) as [r0|]; [|discriminate].
    cbn in Hr. injection Hr as <-. cbn in Hcells |- *. now rewrite Hcells.
Qed.

End Search.

Lemma search_narrows_witness :
  contains (lower_letters "ALICE") (lower_letters "Ali") /\
  search_rows lower_letters "Ali" sample_rows !! 1%nat =
    Some (mkRow ["Alice"; "Savings"] "") /\
  search_rows lower_letters "ALICE" sample_rows !! 1%nat =
    Some (mkRow ["Alice"; "Savings"] "") /\
  row_display (mkRow ["Alice"; "Savings"] "") = "".
Proof.
  assert (contains (lower_letters "ALICE") (lower_letters "Ali")) as Hc
    by now exists "", "ce".
  split; [exact Hc|]. split; [reflexivity|]. split; [reflexivity|].
  apply (search_narrows lower_letters "Ali" "ALICE" sample_rows 0
           (mkRow ["Alice"; "Savings"] "") (mkRow ["Alice"; "Savings"] "")
           Hc eq_refl eq_refl eq_refl).
Defined.

Lemma search_empty_box_witness :
  lower_letters "" = "" /\
  sample_rows !! 2%nat = Some (mkRow [] "") /\
  search_rows lower_letters "" sample_rows !! 2%nat = Some (mkRow [] "none").
Proof.
  split; [reflexivity|]. split; [reflexivity|].
  apply (search_empty_box lower_letters sample_rows 1 (mkRow [] "")
           eq_refl eq_refl).
Defined.

Lemma search_frame_witness :
  search_rows lower_letters "bob" sample_rows !! 2%nat =
    Some (mkRow [] "none") /\
  row_display (mkRow [] "none") = "none".
Proof.
  split; [reflexivity|].
  destruct (search_frame lower_letters "bob" sample_rows) as (_ & _ & Hhide).
  apply (Hhide 1%nat (mkRow [] "none")); reflexivity.
Defined.

(** A search for an account hides the other account and the section
    row, and leaves the header row. *)
Example search_sample :
  search (H := IntegerHost.host) lower_letters "BOB" (Some sample_rows) =
  inl [mkRow [] "";
       mkRow ["Alice"; "Savings"] "none";
       mkRow [] "none";
       mkRow ["Bob"; "Checking"] ""].
Proof. reflexivity. Qed.

End SearchFacts.

(** ** What a click on the eye does *)
Module PasswordFacts.

Import Form Password.

Lemma add_elem token other classes :
  other ∈ classList_add token classes <-> other = token \/ other ∈ classes.
Proof.
  unfold classList_add. case_bool_decide as Hin.
  - split; [auto|]. intros [->|Ho]; assumption.
  - rewrite elem_of_app, list_elem_of_singleton. tauto.
Qed.

Lemma remove_elem token other classes :
  other ∈ classList_remove token classes <-> other <> token /\ other ∈ classes.
Proof. unfold classList_remove. rewrite list_elem_of_filter. tauto. Qed.

(** X14: when the page has both elements, a click leaves the type and
    the icon in agreement, whatever they were before, and changes no other
    token of the icon. *)
Theorem togglePassword_agrees d type classes :
  password_type d = Some type -> icon_classes d = Some classes ->
  agrees (togglePassword d) /\
  forall token, token <> "bi-eye" -> token <> "bi-eye-slash" ->
    (token ∈ default [] (icon_classes (togglePassword d)) <-> token ∈ classes).
Proof.
  intros Ht Hc. unfold togglePassword. rewrite Ht, Hc.
  destruct (String.eqb type "password").
  - split.
    + eexists. split; [reflexivity|]. right. split; [reflexivity|].
      rewrite !add_elem, !remove_elem. split; [now left|].
      intros [[=]|[Hne _]]. now apply Hne.
    + intros token H1 H2. cbn. rewrite add_elem, remove_elem. tauto.
  - split.
    + eexists. split; [reflexivity|]. left. split; [reflexivity|].
      rewrite !add_elem, !remove_elem. split; [now left|].
      intros [[=]|[Hne _]]. now apply Hne.
    + intros token H1 H2. cbn. rewrite add_elem, remove_elem. tauto.
Qed.

(** X15: on a page where the type and the icon agree, two clicks bring
    back the type and the tokens of the icon. *)
Theorem togglePassword_twice d :
  agrees d ->
  password_type (togglePassword (togglePassword d)) = password_type d /\
  same_tokens d (togglePassword (togglePassword d)).
Proof.
  intros (classes & Hc & [(Ht & Hin & Hout)|(Ht & Hin & Hout)]);
    destruct d as [ty cls]; cbn in Hc, Ht; subst ty cls;
    (split; [reflexivity|]); intros token; cbn;
    repeat (rewrite add_elem || rewrite remove_elem); split.
  - intros [->|(Hne & [Heq|(_ & Ht)])]; [assumption|contradiction|assumption].
  - intros Ht.
    destruct (decide (token = "bi-eye")) as [->|Hne]; [now left|].
    right. split; [intros ->; contradiction|]. right. now split.
  - intros [->|(Hne & [Heq|(_ & Ht)])]; [assumption|contradiction|assumption].
  - intros Ht.
    destruct (decide (token = "bi-eye-slash")) as [->|Hne]; [now left|].
    right. split; [intros ->; contradiction|]. right. now split.
Qed.

Lemma togglePassword_agrees_witness :
  password_type odd_login = Some "email" /\
  icon_classes odd_login = Some ["bi-eye"; "bi"; "bi-eye-slash"] /\
  agrees (togglePassword odd_login).
Proof.
  split; [reflexivity|]. split; [reflexivity|].
  apply (togglePassword_agrees odd_login "email"
           ["bi-eye"; "bi"; "bi-eye-slash"] eq_refl eq_refl).
Defined.

Lemma sample_login_agrees : agrees sample_login.
Proof.
  exists ["bi"; "bi-eye"]. split; [reflexivity|]. left.
  split; [reflexivity|]. split; [set_solver|].
  intros Hin. apply list_elem_of_In in Hin. cbn in Hin.
  intuition discriminate.
Defined.

Lemma togglePassword_twice_witness :
  agrees sample_login /\
  password_type (togglePassword (togglePassword sample_login)) =
    Some "password".
Proof.
  split; [exact sample_login_agrees|].
  apply (togglePassword_twice sample_login sample_login_agrees).
Defined.

(** One click on the page as served. *)
Example togglePassword_sample :
  togglePassword sample_login =
  mkLogin (Some "text") (Some ["bi"; "bi-eye-slash"]).
Proof. reflexivity. Qed.

End PasswordFacts.

(** ** More on requests, ticks and toasts *)
Section PageFacts.

Context `{H : Host}.
Variable network : nat -> request -> fetch_outcome.

Lemma try_outcome_value o v :
  try_outcome o = inl v <->
  exists r text,
    o = Responded r /\ resp_ok r = true /\
    resp_text r = inl text /\ JSON_parse text = inl v.
Proof.
  split.
  - destruct o as [e|r]; cbn; [discriminate|].
    destruct (resp_text r) as [text|e] eqn:Ht; [|discriminate].
    destruct (JSON_parse text) as [result|msg] eqn:Hp; [|discriminate].
    destruct (resp_ok r) eqn:Hok.
    + intros [= <-]. eauto 10.
    + destruct (get_prop result "error"); [|discriminate].
      destruct (new_Error _); discriminate.
  - intros (r & text & -> & Hok & Ht & Hp). cbn. now rewrite Ht, Hp, Hok.
Qed.

(** X16: [apiRequest] returns a value exactly when the network answers
    with a 2xx status and a body that parses, and the value is the parsed
    body; the call then leaves nothing on the page but its request on the
    trace: no toast, no timer and no line on the console. *)
Theorem apiRequest_returns url method data w v :
  ((apiRequest network url method data w).2 = inl v <->
   exists r text,
     answer network url method data w = Responded r /\ resp_ok r = true /\
     resp_text r = inl text /\ JSON_parse text = inl v) /\
  ((apiRequest network url method data w).2 = inl v ->
   (apiRequest network url method data w).1 =
   record_request (request_options url method data) w).
Proof.
  rewrite <- try_outcome_value, apiRequest_eq. cbn zeta.
  destruct (try_outcome _); cbn [fst snd]; split; try tauto;
    intros; discriminate.
Qed.

(** X17: what a tick reports.  A failed request is logged twice, by
    [apiRequest] and by the tick, and shown in one toast; when the request
    succeeds the tick shows no toast and starts no timer, whatever happens
    to the values, and logs at most one line. *)
Theorem updateStats_reports w :
  let w' := (updateStats network w).1 in
  match (apiRequest network "/api/stats" None VUndefined w).2 with
  | inr e =>
      console w' =
        console w ++ [ConsoleError "API Error:" e;
                      ConsoleError "Failed to update stats:" e] /\
      toast_container w' =
        Some (default [] (toast_container w) ++ [error_toast (err_message e) w])
  | inl data =>
      toast_container w' = toast_container w /\
      timers w' = timers w /\
      (console w' = console w \/
       exists e, console w' = console w ++ [ConsoleError "Failed to update stats:" e])
  end.
Proof.
  cbn zeta. rewrite updateStats_eq, apiRequest_eq. cbn zeta.
  destruct (try_outcome _) as [data|e]; cbn [fst snd].
  - destruct (stat_elements data) as [entries|e]; [|cbn; eauto 10].
    pose proof (render_frame entries
                  (record_request (request_options "/api/stats" None VUndefined) w))
      as Hfr.
    destruct (render entries _) as [w2 [u|e]]; cbn [fst snd] in *;
      rewrite Hfr; cbn; eauto 10.
  - unfold reported. cbn [console_error console toast_container].
    rewrite showToast_console, showToast_container. cbn.
    rewrite <- app_assoc. split; reflexivity.
Qed.

Lemma rendered_again texts w w1 w2 :
  rendered texts w w1 -> rendered texts w1 w2 -> elements w2 = elements w1.
Proof.
  intros (Hn & Ht & Ha & Hf & Hr & _) (Hn' & Ht' & Ha' & Hf' & Hr' & Ho').
  apply map_eq. intros id.
  destruct (elements w1 !! id) as [x|] eqn:E; [|now apply Hn'].
  assert (is_Some (elements w !! id)) as Hw.
  { destruct (elements w !! id) eqn:E0; [eauto|].
    rewrite (Hn id E0) in E. discriminate. }
  destruct (decide (id ∈ stat_sinks)) as [Hin|Hout].
  - unfold stat_sinks in Hin.
    apply elem_of_cons in Hin as [->|Hin];
      [rewrite Ht' by (rewrite E; eauto); rewrite <- E; symmetry; auto|].
    apply elem_of_cons in Hin as [->|Hin];
      [rewrite Ha' by (rewrite E; eauto); rewrite <- E; symmetry; auto|].
    apply elem_of_cons in Hin as [->|Hin];
      [rewrite Hf' by (rewrite E; eauto); rewrite <- E; symmetry; auto|].
    apply elem_of_cons in Hin as [->|Hin];
      [rewrite Hr' by (rewrite E; eauto); rewrite <- E; symmetry; auto|].
    inversion Hin.
  - rewrite (Ho' id Hout). exact E.
Qed.

(** X18: a tick that gets the snapshot of the tick before gives no
    element a new text. *)
Theorem updateStats_same_snapshot w data total amount fraud rate
      text_total text_amount text_fraud :
  (apiRequest network "/api/stats" None VUndefined w).2 = inl data ->
  (apiRequest network "/api/stats" None VUndefined
     (updateStats network w).1).2 = inl data ->
  get_prop data "total_transactions" = inl total ->
  get_prop data "total_amount" = inl amount ->
  get_prop data "fraud_count" = inl fraud ->
  get_prop data "fraud_rate" = inl (VNum rate) ->
  DOMString_of total = inl text_total ->
  formatCurrency amount = inl text_amount ->
  DOMString_of fraud = inl text_fraud ->
  elements (updateStats network (updateStats network w).1).1 =
  elements (updateStats network w).1.
Proof.
  intros Hd Hd' Ht Ha Hf Hr Htt Hta Htf.
  destruct (successful_tick network w data total amount fraud rate
              text_total text_amount text_fraud Hd Ht Ha Hf Hr Htt Hta Htf)
    as (_ & _ & Hr1).
  destruct (successful_tick network (updateStats network w).1 data total amount
              fraud rate text_total text_amount text_fraud
              Hd' Ht Ha Hf Hr Htt Hta Htf)
    as (_ & _ & Hr2).
  exact (rendered_again _ _ _ _ Hr1 Hr2).
Qed.

(** *** A series of toasts *)

Lemma show_all_cons call calls w :
  show_all (call :: calls) w = show_all calls (showToast call.1 call.2 w).
Proof. reflexivity. Qed.

(** X19: toasts stack in the order of the calls: each call appends
    its toast, with a node of its own, below the toasts that are there, and
    starts the timer of that toast; the container is made once. *)
Theorem showToast_stacks calls w :
  default [] (toast_container (show_all calls w)) =
    default [] (toast_container w) ++ imap (nth_toast w) calls /\
  timers (show_all calls w) = timers w ++ imap (nth_fade w) calls /\
  next_node (show_all calls w) = (next_node w + length calls)%nat /\
  (calls <> [] -> is_Some (toast_container (show_all calls w))).
Proof.
  revert w. induction calls as [|call calls IH]; intros w.
  - cbn. rewrite !app_nil_r. repeat split; [lia|congruence].
  - rewrite show_all_cons.
    destruct (IH (showToast call.1 call.2 w)) as (Hc & Ht & Hn & Hs).
    rewrite Hc, Ht, Hn.
    rewrite showToast_container, showToast_timers, showToast_next_node.
    change (default [] (Some ?l)) with l. cbn [imap length].
    rewrite <- !app_assoc. cbn [app].
    assert (forall i call',
              nth_toast (showToast call.1 call.2 w) i call' =
              nth_toast w (S i) call') as Htoast.
    { intros i call'. unfold nth_toast. rewrite showToast_next_node.
      f_equal. lia. }
    assert (forall i call',
              nth_fade (showToast call.1 call.2 w) i call' =
              nth_fade w (S i) call') as Hfade.
    { intros i call'. unfold nth_fade.
      rewrite showToast_next_node, showToast_now. do 2 f_equal. lia. }
    split; [|split; [|split]].
    + f_equal. f_equal.
      * unfold nth_toast. now rewrite Nat.add_0_r.
      * apply imap_ext. intros i call' _. apply Htoast.
    + f_equal. f_equal.
      * unfold nth_fade. now rewrite Nat.add_0_r.
      * apply imap_ext. intros i call' _. apply Hfade.
    + lia.
    + intros _. destruct calls as [|call' calls'].
      * cbn. rewrite showToast_container. eauto.
      * apply Hs. discriminate.
Qed.

(** *** The look of a toast *)








End PageFacts.

Module MoreExamples.

Import IntegerHost Scenario.

Lemma updateStats_same_snapshot_witness :
  (apiRequest (H := host) net_ok "/api/stats" None VUndefined page).2
    = inl snapshot /\
  (apiRequest (H := host) net_ok "/api/stats" None VUndefined
     (updateStats (H := host) net_ok page).1).2 = inl snapshot /\
  elements (updateStats (H := host) net_ok
              (updateStats (H := host) net_ok page).1).1 =
  elements (updateStats (H := host) net_ok page).1.
Proof.
  assert ((apiRequest (H := host) net_ok "/api/stats" None VUndefined page).2
            = inl snapshot) as Hd by (vm_compute; reflexivity).
  assert ((apiRequest (H := host) net_ok "/api/stats" None VUndefined
             (updateStats (H := host) net_ok page).1).2 = inl snapshot) as Hd'
    by (vm_compute; reflexivity).
  split; [exact Hd|]. split; [exact Hd'|].
  apply (updateStats_same_snapshot (H := host) net_ok page snapshot
           (VNum (Some 120)) (VNum (Some 1234)) (VNum (Some 3)) (Some 2)
           "120" "$1,234.00" "3"
           Hd Hd' eq_refl eq_refl eq_refl eq_refl eq_refl eq_refl eq_refl).
Defined.

Lemma apiRequest_returns_witness :
  (apiRequest (H := host) net_ok "/api/stats" None VUndefined page).2
    = inl snapshot /\
  (apiRequest (H := host) net_ok "/api/stats" None VUndefined page).1 =
  record_request (stats_request (H := host)) page.
Proof.
  assert ((apiRequest (H := host) net_ok "/api/stats" None VUndefined page).2
            = inl snapshot) as Hd by (vm_compute; reflexivity).
  split; [exact Hd|].
  destruct (apiRequest_returns (H := host) net_ok "/api/stats" None VUndefined
              page snapshot) as [_ Hquiet].
  apply (Hquiet Hd).
Defined.

Lemma showToast_stacks_witness :
  [("Saved", Some "success"); ("Offline", None)] <> [] /\
  is_Some (toast_container
             (show_all [("Saved", Some "success"); ("Offline", None)] page)).
Proof.
  split; [discriminate|].
  destruct (showToast_stacks [("Saved", Some "success"); ("Offline", None)] page)
    as (_ & _ & _ & Hs).
  apply Hs. discriminate.
Defined.

(** Two toasts on the page as served. *)
Example show_all_sample :
  toast_container
    (show_all [("Saved", Some "success"); ("Offline", None)] page) =
  Some [mkToast 0 "success" (IconClass "check-circle") "Saved" false;
        mkToast 1 "info" (IconClass "info-circle") "Offline" false].
Proof. reflexivity. Qed.


End MoreExamples.
